(** * cs_instancegroup: the instance-group reconciler of
    cloud/cloudstack/cs_instancegroup.py

    A shallow embedding of class [AnsibleCloudStackInstanceGroup] and of
    [main], followed by the properties of the reconciliation procedure.

    Python dictionaries whose key set matters (a group descriptor, the
    keyword arguments of an API call, the result mapping) are finite maps.
    The object's mutable attributes, the remote store behind the client and
    the sequence of API calls issued so far are threaded through a state
    monad with two ways of not returning: a Python exception, and the
    [SystemExit] of [module.fail_json]. *)

From Stdlib Require Import ZArith.
From stdpp Require Import base option gmap strings pretty list.

Local Open Scope string_scope.
Local Open Scope list_scope.

(** ** Values *)

(** A group descriptor [g] as the remote store hands it out: a dictionary
    from field names to strings. *)
Abbreviation descriptor := (gmap string string).

(** Keyword arguments of an API call; a value may be [None]. *)
Abbreviation kwargs := (gmap string (option string)).

(** Values of the result mapping: the [changed] flag and copied strings. *)
Inductive pyvalue :=
| PyBool (b : bool)
| PyStr (s : string).

Abbreviation result_map := (gmap string pyvalue).

(** Truth value of a dictionary-or-None, as in [if instance_group:]. *)
Definition truthy (d : option descriptor) : bool :=
  match d with
  | Some g => bool_decide (g ≠ ∅)
  | None => false
  end.

(** ** The remote store client *)

(** The exceptions the top level tells apart. [Exception] stands for every
    other subclass of Python's Exception; [detail] is [str(e)]. *)
Inductive exn :=
| CloudStackException (detail : string)
| Exception (detail : string).

(** [str(KeyError(k))] is the quoted key. *)
Definition KeyError (k : string) : exn := Exception ("'" +:+ k +:+ "'").

(** Responses, with the keys this module reads as optional fields. *)
Record list_response := {
  l_count : option Z;
  l_instancegroup : option (list descriptor)
}.

Record create_response := {
  c_errortext : option string;
  c_instancegroup : option descriptor
}.

Record delete_response := {
  d_errortext : option string;
  d_success : option string
}.

(** [if instance_groups:] holds of a non-empty response dictionary. *)
Definition nonempty_response (r : list_response) : bool :=
  bool_decide (is_Some (l_count r)) || bool_decide (is_Some (l_instancegroup r)).

(** The client [self.cs] over a remote store of type [St]: every call takes
    the store to a new store and either raises or answers. *)
Record CloudStack (St : Type) := {
  listInstanceGroups : kwargs → St → St * (exn + list_response);
  createInstanceGroup : kwargs → St → St * (exn + create_response);
  deleteInstanceGroup : kwargs → St → St * (exn + delete_response)
}.
Arguments listInstanceGroups {St}.
Arguments createInstanceGroup {St}.
Arguments deleteInstanceGroup {St}.

(** One entry of the log of calls sent to the remote store. *)
Inductive api_call :=
| ListCall (args : kwargs)
| CreateCall (args : kwargs)
| DeleteCall (args : kwargs).

Definition is_list_call (c : api_call) : bool :=
  match c with ListCall _ => true | _ => false end.

(** ** The module and its parameters *)

Record AnsibleModule := {
  name : string;         (* params['name'], required *)
  state : string;        (* params['state'] *)
  check_mode : bool
}.

(** The scope resolver of the base class, as the values it yields during
    one invocation: [get_account key], [get_domain key], [get_project key]. *)
Record resolver := {
  get_account : string → option string;
  get_domain : string → option string;
  get_project : string → option string
}.

(** ** The object *)

Record self (St : Type) := {
  cs : St;
  calls : list api_call;
  instance_group : option descriptor;
  result : result_map
}.
Arguments cs {St}.
Arguments calls {St}.
Arguments instance_group {St}.
Arguments result {St}.
Arguments Build_self {St}.

(** Modelled from the spec: the constructor of the base class
    AnsibleCloudStack is not part of this file; the result record it sets up
    is [{changed: False}] (the ReconciliationResult of the data model). *)
Definition initial_result : result_map := {[ "changed" := PyBool false ]}.

(** [AnsibleCloudStackInstanceGroup(module)] against remote store [s]. *)
Definition AnsibleCloudStackInstanceGroup {St} (s : St) : self St :=
  {| cs := s; calls := []; instance_group := None; result := initial_result |}.

(** ** Control *)

Inductive abort :=
| Raise (e : exn)
| SystemExit (msg : string).   (* module.fail_json(msg=...) *)

Definition M (St A : Type) : Type := self St → self St * (abort + A).

Definition ret {St A} (a : A) : M St A := λ st, (st, inr a).

Definition bind {St A B} (c : M St A) (k : A → M St B) : M St B :=
  λ st, match c st with
        | (st', inr a) => k a st'
        | (st', inl e) => (st', inl e)
        end.

Notation "x <~ c ;; k" := (bind c (λ x, k))
  (at level 100, c at next level, right associativity).
Notation "c ;;; k" := (bind c (λ _, k))
  (at level 100, right associativity).

Definition raise {St A} (e : exn) : M St A := λ st, (st, inl (Raise e)).

Definition fail_json {St A} (msg : string) : M St A :=
  λ st, (st, inl (SystemExit msg)).

Definition get_self_instance_group {St} : M St (option descriptor) :=
  λ st, (st, inr (instance_group st)).

Definition set_self_instance_group {St} (g : option descriptor) : M St unit :=
  λ st, (Build_self (cs st) (calls st) g (result st), inr tt).

Definition set_result {St} (k : string) (v : pyvalue) : M St unit :=
  λ st, (Build_self (cs st) (calls st) (instance_group st) (<[k := v]> (result st)),
         inr tt).

Definition get_self_result {St} : M St result_map :=
  λ st, (st, inr (result st)).

(** The object once call [c] has been sent and the store has moved to [s']. *)
Definition after_call {St} (st : self St) (s' : St) (c : api_call) : self St :=
  Build_self s' (calls st ++ [c]) (instance_group st) (result st).

(** The object once [self.result['changed'] = True] has run. *)
Definition mark_changed {St} (st : self St) : self St :=
  Build_self (cs st) (calls st) (instance_group st)
             (<["changed" := PyBool true]> (result st)).

(** Send one request: log it, let the store move, raise what it raises. *)
Definition request {St R} (f : kwargs → St → St * (exn + R))
    (entry : kwargs → api_call) (args : kwargs) : M St R :=
  λ st, let '(s', r) := f args (cs st) in
        let st' := after_call st s' (entry args) in
        match r with
        | inl e => (st', inl (Raise e))
        | inr v => (st', inr v)
        end.

(** The loop of [get_instance_group] over the listed groups: the first [g]
    with [name in [g['name'], g['id']]]; both subscripts are evaluated
    before the membership test, so a missing key raises. *)
Fixpoint first_match (n : string) (gs : list descriptor) : exn + option descriptor :=
  match gs with
  | [] => inr None
  | g :: gs' =>
      match g !! "name" with
      | None => inl (KeyError "name")
      | Some gn =>
          match g !! "id" with
          | None => inl (KeyError "id")
          | Some gi =>
              if bool_decide (n = gn) || bool_decide (n = gi)
              then inr (Some g)
              else first_match n gs'
          end
      end
  end.

Section Reconciler.
Context {St : Type}.
Variable client : CloudStack St.
Variable module : AnsibleModule.
Variable scope : resolver.

Definition scope_args : kwargs :=
  <["projectid" := get_project scope "id"]>
    (<["domainid" := get_domain scope "id"]>
       (<["account" := get_account scope "name"]> ∅)).

Definition get_instance_group : M St (option descriptor) :=
  cached <~ get_self_instance_group ;;
  if truthy cached then ret cached
  else
    let n := name module in
    let args := scope_args in
    instance_groups <~ request (listInstanceGroups client) ListCall args ;;
    (if nonempty_response instance_groups then
       match l_instancegroup instance_groups with
       | None => raise (KeyError "instancegroup")
       | Some gs =>
           match first_match n gs with
           | inl e => raise e
           | inr (Some g) => set_self_instance_group (Some g)
           | inr None => ret tt
           end
       end
     else ret tt) ;;;
    get_self_instance_group.

Definition create_args : kwargs :=
  <["projectid" := get_project scope "id"]>
    (<["domainid" := get_domain scope "id"]>
       (<["account" := get_account scope "name"]>
          (<["name" := Some (name module)]> ∅))).

Definition failed (errortext : string) : string :=
  "Failed: '" +:+ errortext +:+ "'".

Definition present_instance_group : M St (option descriptor) :=
  instance_group <~ get_instance_group ;;
  if negb (truthy instance_group) then
    set_result "changed" (PyBool true) ;;;
    let args := create_args in
    if negb (check_mode module) then
      res <~ request (createInstanceGroup client) CreateCall args ;;
      (match c_errortext res with
       | Some e => fail_json (failed e)
       | None => ret tt
       end) ;;;
      match c_instancegroup res with
      | None => raise (KeyError "instancegroup")
      | Some g => ret (Some g)
      end
    else ret instance_group
  else ret instance_group.

Definition absent_instance_group : M St (option descriptor) :=
  instance_group <~ get_instance_group ;;
  if truthy instance_group then
    set_result "changed" (PyBool true) ;;;
    (if negb (check_mode module) then
       match instance_group ≫= (.!! "id") with
       | None => raise (KeyError "id")
       | Some i =>
           res <~ request (deleteInstanceGroup client) DeleteCall
                          {[ "id" := Some i ]} ;;
           match d_errortext res with
           | Some e => fail_json (failed e)
           | None => ret tt
           end
       end
     else ret tt) ;;;
    ret instance_group
  else ret instance_group.

(** [if k in instance_group: self.result[k] = instance_group[k]] *)
Definition copy_field (k : string) (g : descriptor) : M St unit :=
  match g !! k with
  | Some v => set_result k (PyStr v)
  | None => ret tt
  end.

Definition get_result (instance_group : option descriptor) : M St result_map :=
  (if truthy instance_group then
     match instance_group with
     | Some g =>
         copy_field "id" g ;;;
         copy_field "created" g ;;;
         copy_field "name" g ;;;
         copy_field "project" g ;;;
         copy_field "domain" g ;;;
         copy_field "account" g
     | None => ret tt
     end
   else ret tt) ;;;
  get_self_result.

(** How the process ends: [module.exit_json] on the result or
    [module.fail_json(msg=...)]. *)
Inductive outcome :=
| exit_json (r : result_map)
| failed_json (msg : string).

(** The body of the [try] block of [main]. *)
Definition reconcile : M St result_map :=
  let state := state module in
  instance_group <~ (if bool_decide (state = "absent")
                     then absent_instance_group
                     else present_instance_group) ;;
  get_result instance_group.

Definition lib_required : string := "python library cs required: pip install cs".

(** [main], from the [has_lib_cs] test on. It yields the remote store as
    the invocation leaves it, the calls issued, and how the process ends. *)
Definition main (has_lib_cs : bool) (s : St) : St * list api_call * outcome :=
  if negb has_lib_cs then (s, [], failed_json lib_required)
  else
    let '(st, r) := reconcile (AnsibleCloudStackInstanceGroup s) in
    (cs st, calls st,
     match r with
     | inr result => exit_json result
     | inl (Raise (CloudStackException e)) =>
         failed_json ("CloudStackException: " +:+ e)
     | inl (Raise (Exception e)) => failed_json ("Exception: " +:+ e)
     | inl (SystemExit msg) => failed_json msg
     end).

End Reconciler.

(** ** What a lookup matches *)

(** [name in [g['name'], g['id']]] as a proposition on descriptors. *)
Definition matches (n : string) (g : descriptor) : Prop :=
  g !! "name" = Some n ∨ g !! "id" = Some n.

#[global] Instance matches_dec n g : Decision (matches n g).
Proof. unfold matches. apply _. Defined.

(** A descriptor of the data model carries a name and an id. *)
Definition well_formed (g : descriptor) : Prop :=
  is_Some (g !! "name") ∧ is_Some (g !! "id").

(** The six keys [get_result] copies. *)
Definition projected : list string :=
  ["id"; "created"; "name"; "project"; "domain"; "account"].

(** What [get_result] makes of the result mapping [r] for descriptor [g]:
    one conditional copy per projected key, in the order of the source. *)
Definition copy (g : descriptor) (r : result_map) (k : string) : result_map :=
  match g !! k with
  | Some v => <[k := PyStr v]> r
  | None => r
  end.

Definition project (g : descriptor) (r : result_map) : result_map :=
  foldl (copy g) r projected.

(** Two lookups in a row on the same object. *)
Definition lookup_twice {St} (client : CloudStack St) (module : AnsibleModule)
    (scope : resolver) : M St (option descriptor * option descriptor) :=
  first <~ get_instance_group client module scope ;;
  second <~ get_instance_group client module scope ;;
  ret (first, second).

(** The module with its check-mode flag set to [b]. *)
Definition with_check_mode (b : bool) (m : AnsibleModule) : AnsibleModule :=
  {| name := name m; state := state m; check_mode := b |}.

(** Modelled from the spec: the process exit conventions belong to the
    surrounding framework; a failure ends with a non-zero status, a success
    with zero. *)
Definition exit_status (o : outcome) : Z :=
  match o with
  | exit_json _ => 0
  | failed_json _ => 1
  end.

(** The message of the [fail_json] that ends an invocation which left the
    [try] block of [main] by [a]: one clause per [except], and the message
    [fail_json] already carried. *)
Definition failure_message (a : abort) : string :=
  match a with
  | Raise (CloudStackException e) => "CloudStackException: " +:+ e
  | Raise (Exception e) => "Exception: " +:+ e
  | SystemExit msg => msg
  end.

(** A create or a delete request. *)
Definition mutating (c : api_call) : bool := negb (is_list_call c).

(** Two projections in a row on the same object. *)
Definition get_result_twice {St} (first second : option descriptor)
    : M St result_map :=
  get_result first ;;; get_result second.

(** ** The remote store, as far as reconciliation relies on it *)

(** What the module sees of a list response: [Some gs] for the groups it
    scans ([[]] for an empty response), [None] when subscripting raises. *)
Definition listed (r : list_response) : option (list descriptor) :=
  if nonempty_response r then l_instancegroup r else Some [].

(** What a lookup makes of a list response. *)
Definition scan (n : string) (r : list_response) : exn + option descriptor :=
  match listed r with
  | None => inl (KeyError "instancegroup")
  | Some gs => first_match n gs
  end.

(** Modelled from the spec: the remote store is an external collaborator.
    With no interference, listing neither fails nor changes the store; a
    created group carries an id and the requested name and is listed from
    then on, next to what was listed before; a deleted group is no longer
    listed and the others still are. [visible a s] is the
    collection listed under scope filter [a] in store [s]. *)
Record no_interference {St} (client : CloudStack St)
    (visible : kwargs → St → list descriptor) : Prop := {
  list_visible : ∀ a s, ∃ r,
    listInstanceGroups client a s = (s, inr r) ∧ listed r = Some (visible a s);
  create_visible : ∀ a n s s' r g,
    createInstanceGroup client (<["name" := Some n]> a) s = (s', inr r) →
    c_errortext r = None →
    c_instancegroup r = Some g →
    g !! "name" = Some n ∧ is_Some (g !! "id") ∧
    ∀ g', g' ∈ visible a s' ↔ g' = g ∨ g' ∈ visible a s;
  delete_visible : ∀ a i s s' r,
    deleteInstanceGroup client {[ "id" := Some i ]} s = (s', inr r) →
    d_errortext r = None →
    ∀ g', g' ∈ visible a s' ↔ g' ∈ visible a s ∧ g' !! "id" ≠ Some i
}.

(** ** A reference store *)

(** A store with a single scope: the groups in creation order and a counter
    for fresh ids. *)
Record store := {
  next_id : nat;
  groups : list descriptor
}.

Definition listing (gs : list descriptor) : list_response :=
  match gs with
  | [] => {| l_count := None; l_instancegroup := None |}
  | _ => {| l_count := Some (Z.of_nat (length gs)); l_instancegroup := Some gs |}
  end.

Definition new_group (i : nat) (n : string) : descriptor :=
  {[ "id" := "ig-" +:+ pretty i; "name" := n ]}.

Definition store_list (a : kwargs) (s : store) : store * (exn + list_response) :=
  (s, inr (listing (groups s))).

Definition store_create (a : kwargs) (s : store) : store * (exn + create_response) :=
  match a !! "name" with
  | Some (Some n) =>
      let g := new_group (next_id s) n in
      ({| next_id := S (next_id s); groups := groups s ++ [g] |},
       inr {| c_errortext := None; c_instancegroup := Some g |})
  | _ => (s, inr {| c_errortext := Some "name is required"; c_instancegroup := None |})
  end.

Definition store_delete (a : kwargs) (s : store) : store * (exn + delete_response) :=
  match a !! "id" with
  | Some (Some i) =>
      ({| next_id := next_id s;
          groups := filter (λ g, g !! "id" ≠ Some i) (groups s) |},
       inr {| d_errortext := None; d_success := Some "true" |})
  | _ => (s, inr {| d_errortext := Some "id is required"; d_success := None |})
  end.

Definition reference : CloudStack store :=
  {| listInstanceGroups := store_list;
     createInstanceGroup := store_create;
     deleteInstanceGroup := store_delete |}.

(** The reference store behind a service that answers every mutating call
    with error text [e]. *)
Definition refusing (e : string) : CloudStack store :=
  {| listInstanceGroups := store_list;
     createInstanceGroup := λ _ s,
       (s, inr {| c_errortext := Some e; c_instancegroup := None |});
     deleteInstanceGroup := λ _ s,
       (s, inr {| d_errortext := Some e; d_success := None |}) |}.

(** A client whose list query raises [e]. *)
Definition unreachable (e : exn) : CloudStack store :=
  {| listInstanceGroups := λ _ s, (s, inl e);
     createInstanceGroup := store_create;
     deleteInstanceGroup := store_delete |}.

(** Concrete inputs used below. *)
Definition no_scope : resolver :=
  {| get_account := λ _, None; get_domain := λ _, None; get_project := λ _, None |}.

Definition loadbalancers (st : string) (dry : bool) : AnsibleModule :=
  {| name := "loadbalancers"; state := st; check_mode := dry |}.

Definition empty_store : store := {| next_id := 0; groups := [] |}.

Definition one_group : store :=
  {| next_id := 1; groups := [new_group 0 "loadbalancers"] |}.

Definition two_groups : store :=
  {| next_id := 2; groups := [new_group 0 "webservers"; new_group 1 "loadbalancers"] |}.

(** A store where the name of the first group is the id of the second. *)
Definition ambiguous : store :=
  {| next_id := 2; groups := [new_group 0 "ig-1"; new_group 1 "webservers"] |}.

Definition drop_ig1 : AnsibleModule :=
  {| name := "ig-1"; state := "absent"; check_mode := false |}.

(** What the reference store lists, whatever the scope filter. *)
Definition all_groups (a : kwargs) (s : store) : list descriptor := groups s.

(** Two invocations in a row, the second against the store the first left:
    the [changed] flags and the descriptors they return. *)
Definition twice {St} (op : M St (option descriptor)) (s : St)
    : (option pyvalue * (abort + option descriptor))
      * (option pyvalue * (abort + option descriptor)) :=
  let first := op (AnsibleCloudStackInstanceGroup s) in
  let second := op (AnsibleCloudStackInstanceGroup (cs first.1)) in
  ((result first.1 !! "changed", first.2), (result second.1 !! "changed", second.2)).

(** A store that lists one entry with a name and no id. *)
Definition without_id : store :=
  {| next_id := 1; groups := [ {[ "name" := "loadbalancers" ]} ] |}.

(** The reference store behind a service whose list answer holds a count
    and no collection. *)
Definition count_only : CloudStack store :=
  {| listInstanceGroups := λ _ s,
       (s, inr {| l_count := Some 0%Z; l_instancegroup := None |});
     createInstanceGroup := store_create;
     deleteInstanceGroup := store_delete |}.

(** The reference store behind a service whose create answer is empty. *)
Definition silent_create : CloudStack store :=
  {| listInstanceGroups := store_list;
     createInstanceGroup := λ _ s,
       (s, inr {| c_errortext := None; c_instancegroup := None |});
     deleteInstanceGroup := store_delete |}.

(** The reference store behind a client whose mutating requests raise [e]. *)
Definition failing_mutation (e : exn) : CloudStack store :=
  {| listInstanceGroups := store_list;
     createInstanceGroup := λ _ s, (s, inl e);
     deleteInstanceGroup := λ _ s, (s, inl e) |}.

(** The second group of [two_groups], addressed by its id. *)
Definition by_id : AnsibleModule :=
  {| name := "ig-1"; state := "present"; check_mode := false |}.

(** * Properties *)

(** ** The scan of the listed groups *)

Lemma matches_test n g gn gi :
  g !! "name" = Some gn → g !! "id" = Some gi →
  bool_decide (n = gn) || bool_decide (n = gi) = bool_decide (matches n g).
Proof.
  intros Hn Hi. destruct (decide (matches n g)) as [Hm|Hm].
  - rewrite (bool_decide_eq_true_2 _ Hm). apply orb_true_iff.
    destruct Hm as [Hm|Hm]; [left; rewrite Hn in Hm|right; rewrite Hi in Hm];
      apply bool_decide_eq_true_2; congruence.
  - rewrite (bool_decide_eq_false_2 _ Hm).
    apply orb_false_iff; split; apply bool_decide_eq_false_2;
      intros ->; apply Hm; [by left|by right].
Qed.

Lemma first_match_cons n g gs :
  well_formed g →
  first_match n (g :: gs) =
    if decide (matches n g) then inr (Some g) else first_match n gs.
Proof.
  intros [[gn Hn] [gi Hi]]. simpl. rewrite Hn, Hi.
  rewrite (matches_test n g gn gi) by done.
  destruct (decide (matches n g)).
  - by rewrite bool_decide_eq_true_2.
  - by rewrite bool_decide_eq_false_2.
Qed.

(** On descriptors of the data model the scan is a search for the first
    match. *)
Lemma first_match_list_find n gs :
  Forall well_formed gs →
  first_match n gs = inr (snd <$> list_find (matches n) gs).
Proof.
  induction 1 as [|g gs Hg _ IH]; [done|].
  rewrite first_match_cons by done. cbn [list_find].
  destruct (decide (matches n g)); [done|].
  rewrite IH. by destruct (list_find (matches n) gs) as [[??]|].
Qed.

Lemma first_match_found n gs g :
  first_match n gs = inr (Some g) → g ∈ gs ∧ matches n g ∧ well_formed g.
Proof.
  induction gs as [|h gs IH]; [done|]. simpl.
  destruct (h !! "name") as [gn|] eqn:Hn; [|done].
  destruct (h !! "id") as [gi|] eqn:Hi; [|done].
  rewrite (matches_test n h gn gi) by done.
  case_bool_decide as Hm.
  - intros [= <-]. split; [left|]. split; [done|]. by split; eexists.
  - intros Hrec. destruct (IH Hrec) as (? & ? & ?). split; [by right|done].
Qed.

Lemma first_match_none n gs :
  first_match n gs = inr None ↔
  Forall (λ g, well_formed g ∧ ¬ matches n g) gs.
Proof.
  induction gs as [|h gs IH]; [split; [constructor|done]|]. simpl.
  destruct (h !! "name") as [gn|] eqn:Hn.
  2:{ split; [done|]. intros Hall. apply Forall_cons_1 in Hall as [[[[? Hc] _] _] _].
      congruence. }
  destruct (h !! "id") as [gi|] eqn:Hi.
  2:{ split; [done|]. intros Hall. apply Forall_cons_1 in Hall as [[[_ [? Hc]] _] _].
      congruence. }
  rewrite (matches_test n h gn gi) by done.
  case_bool_decide as Hm.
  - split; [done|]. intros Hall. apply Forall_cons_1 in Hall as [[_ ?] _]. done.
  - rewrite IH. split.
    + intros Hall. constructor; [|done]. split; [by split; eexists|done].
    + intros Hall. by apply Forall_cons_1 in Hall as [_ ?].
Qed.

(** A found group is never the empty dictionary. *)
Lemma well_formed_truthy g : well_formed g → truthy (Some g) = true.
Proof.
  intros [[gn Hn] _]. simpl. apply bool_decide_eq_true_2.
  intros ->. by rewrite lookup_empty in Hn.
Qed.

(** If every match among well-formed groups is [g], the scan answers [g]. *)
Lemma first_match_unique n gs g :
  Forall well_formed gs → g ∈ gs → matches n g →
  (∀ h, h ∈ gs → matches n h → h = g) →
  first_match n gs = inr (Some g).
Proof.
  intros Hwf Hin Hm Huniq. rewrite first_match_list_find by done.
  destruct (list_find (matches n) gs) as [[i h]|] eqn:Hfind.
  - apply list_find_Some in Hfind as (Hi & Hh & _). simpl.
    do 2 f_equal. apply Huniq; [|done]. by eapply list_elem_of_lookup_2.
  - apply list_find_None in Hfind. rewrite Forall_forall in Hfind.
    by destruct (Hfind g Hin).
Qed.

(** ** Lookup *)

Section Lookup.
Context {St : Type}.
Variable client : CloudStack St.
Variable module : AnsibleModule.
Variable scope : resolver.

Local Abbreviation lookup := (get_instance_group client module scope).

Lemma get_instance_group_cached (st : self St) :
  truthy (instance_group st) = true →
  lookup st = (st, inr (instance_group st)).
Proof.
  intros Hc. unfold get_instance_group, bind, get_self_instance_group.
  by rewrite Hc.
Qed.

(** With nothing cached the lookup sends one list query and scans the
    answer. *)
Lemma get_instance_group_query (st : self St) :
  truthy (instance_group st) = false →
  lookup st =
    let '(s', r) := listInstanceGroups client (scope_args scope) (cs st) in
    let st' := after_call st s' (ListCall (scope_args scope)) in
    match r with
    | inl e => (st', inl (Raise e))
    | inr resp =>
        match scan (name module) resp with
        | inl e => (st', inl (Raise e))
        | inr (Some g) =>
            (Build_self (cs st') (calls st') (Some g) (result st'), inr (Some g))
        | inr None => (st', inr (instance_group st))
        end
    end.
Proof.
  intros Hc. unfold get_instance_group, bind, get_self_instance_group, request.
  rewrite Hc. destruct (listInstanceGroups _ _ _) as [s' [e|resp]]; [done|].
  unfold scan, listed. destruct (nonempty_response resp); [|done].
  destruct (l_instancegroup resp) as [gs|]; [|done].
  by destruct (first_match (name module) gs) as [e|[g|]].
Qed.

(** What a lookup returns is what it leaves in the cache, and a lookup
    changes neither the result mapping nor, beyond the list query, the log. *)
Lemma get_instance_group_returns (st st1 : self St) r :
  lookup st = (st1, inr r) →
  instance_group st1 = r ∧ result st1 = result st.
Proof.
  destruct (truthy (instance_group st)) eqn:Hc.
  - rewrite get_instance_group_cached by done. by intros [= <- <-].
  - rewrite get_instance_group_query by done.
    destruct (listInstanceGroups _ _ _) as [s' [e|resp]]; [done|]. cbv zeta.
    destruct (scan _ resp) as [e|[g|]]; [done| |]; by intros [= <- <-].
Qed.

Lemma get_instance_group_fresh_calls (s : St) (st1 : self St) o :
  lookup (AnsibleCloudStackInstanceGroup s) = (st1, o) →
  calls st1 = [ListCall (scope_args scope)] ∧
  cs st1 = fst (listInstanceGroups client (scope_args scope) s) ∧
  result st1 = initial_result.
Proof.
  rewrite get_instance_group_query by done. simpl.
  destruct (listInstanceGroups _ _ _) as [s' [e|resp]]; [by intros [= <- <-]|].
  cbv zeta. destruct (scan _ resp) as [e|[g|]]; by intros [= <- <-].
Qed.

(** On a new object a lookup that returns found a well-formed listed group
    or returns [None]. *)
Lemma get_instance_group_fresh_found (s : St) (st1 : self St) r :
  lookup (AnsibleCloudStackInstanceGroup s) = (st1, inr r) →
  match r with
  | Some g => well_formed g ∧ matches (name module) g
  | None => True
  end.
Proof.
  rewrite get_instance_group_query by done. simpl.
  destruct (listInstanceGroups _ _ _) as [s' [e|resp]]; [done|]. cbv zeta.
  unfold scan. destruct (listed resp) as [gs|]; [|done].
  destruct (first_match _ gs) as [e|[g|]] eqn:Hfm; [done| |].
  - intros [= <- <-]. by apply first_match_found in Hfm as (_ & ? & ?).
  - by intros [= <- <-].
Qed.


(** C4. Lookup matches on either key: when the list query answers with a
    collection [gs] of descriptors of the data model, a lookup for [X]
    returns the first entry of [gs], in order, whose name or id is [X]; so it
    finds a match whenever [X] is the stored name of some listed descriptor,
    and whenever [X] is the stored id of one, and it returns none when no
    entry has [X] as name or id. *)
Theorem lookup_dual_key (s s' : St) resp gs :
  listInstanceGroups client (scope_args scope) s = (s', inr resp) →
  l_instancegroup resp = Some gs →
  Forall well_formed gs →
  let X := name module in
  let found := snd (lookup (AnsibleCloudStackInstanceGroup s)) in
  found = inr (snd <$> list_find (matches X) gs) ∧
  (∀ g, g ∈ gs → g !! "name" = Some X →
        ∃ g', found = inr (Some g') ∧ g' ∈ gs ∧ matches X g') ∧
  (∀ g, g ∈ gs → g !! "id" = Some X →
        ∃ g', found = inr (Some g') ∧ g' ∈ gs ∧ matches X g') ∧
  (∀ g', found = inr (Some g') →
         ∃ i, gs !! i = Some g' ∧ matches X g' ∧
              ∀ j h, gs !! j = Some h → j < i → ¬ matches X h) ∧
  ((∀ g, g ∈ gs → ¬ matches X g) → found = inr None).
Proof.
  intros Hlist Hgs Hwf X found.
  assert (Hfound : found = inr (snd <$> list_find (matches X) gs)).
  { unfold found. rewrite get_instance_group_query by done. simpl.
    rewrite Hlist. cbv zeta. unfold scan, listed, nonempty_response.
    rewrite Hgs. rewrite (bool_decide_eq_true_2 (is_Some (Some gs))) by eauto.
    rewrite orb_true_r. rewrite first_match_list_find by done. fold X.
    by destruct (list_find (matches X) gs) as [[i g]|]. }
  assert (Hsome : ∀ g, g ∈ gs → matches X g →
            ∃ g', found = inr (Some g') ∧ g' ∈ gs ∧ matches X g').
  { intros g Hin Hm. rewrite Hfound.
    destruct (list_find (matches X) gs) as [[i g']|] eqn:Hfind.
    - apply list_find_Some in Hfind as (Hi & Hg' & _).
      exists g'. split; [done|]. split; [|done]. by eapply list_elem_of_lookup_2.
    - apply list_find_None in Hfind. rewrite Forall_forall in Hfind.
      by destruct (Hfind g Hin). }
  split; [done|]. split; [intros g ? ?; apply (Hsome g); [done|by left]|].
  split; [intros g ? ?; apply (Hsome g); [done|by right]|]. split.
  - intros g'. rewrite Hfound.
    destruct (list_find (matches X) gs) as [[i g'']|] eqn:Hfind; [|done].
    intros [= <-]. apply list_find_Some in Hfind as (Hi & Hg' & Hbefore).
    exists i. split; [done|]. split; [done|]. intros j h ? ?. by eapply Hbefore.
  - intros Hno. rewrite Hfound.
    destruct (list_find (matches X) gs) as [[i g']|] eqn:Hfind; [|done].
    apply list_find_Some in Hfind as (Hi & Hg' & _).
    destruct (Hno g'); [by eapply list_elem_of_lookup_2|done].
Qed.

(** C6, as the code has it. A lookup that found a group is cached on the
    object: the next lookup sends no query, changes nothing and returns the
    same descriptor. A lookup that found nothing leaves the cache empty, and
    the next lookup sends the list query again. *)
Theorem lookup_memoized_when_found (st st1 : self St) r :
  lookup st = (st1, inr r) →
  (truthy r = true → lookup st1 = (st1, inr r)) ∧
  (truthy r = false →
   calls (fst (lookup st1)) = calls st1 ++ [ListCall (scope_args scope)]).
Proof.
  intros Hrun. destruct (get_instance_group_returns _ _ _ Hrun) as [<- _].
  split; intros Hr.
  - by apply get_instance_group_cached.
  - rewrite get_instance_group_query by done.
    destruct (listInstanceGroups _ _ _) as [s' [e|resp]]; [done|]. cbv zeta.
    by destruct (scan _ resp) as [e|[g|]].
Qed.

End Lookup.

Lemma new_group_well_formed i n : well_formed (new_group i n).
Proof. split; eexists; unfold new_group; by simplify_map_eq. Qed.

Lemma lookup_dual_key_witness :
  Forall well_formed (groups two_groups) ∧
  snd (get_instance_group reference by_id no_scope
         (AnsibleCloudStackInstanceGroup two_groups))
  = inr (Some (new_group 1 "loadbalancers")).
Proof.
  assert (Hwf : Forall well_formed (groups two_groups))
    by (repeat constructor; apply new_group_well_formed).
  split; [exact Hwf|].
  destruct (lookup_dual_key reference by_id no_scope two_groups two_groups
              (listing (groups two_groups)) (groups two_groups)) as [Hfound _].
  - reflexivity.
  - reflexivity.
  - exact Hwf.
  - etrans; [exact Hfound|]. vm_compute. reflexivity.
Defined.

(** C6 as stated fails for a lookup that finds nothing: on the empty
    reference store two lookups on the same object send the list query
    twice. *)
Lemma lookup_not_memoized_when_absent :
  let st := AnsibleCloudStackInstanceGroup empty_store in
  let m := loadbalancers "present" false in
  snd (get_instance_group reference m no_scope st) = inr None ∧
  calls (fst (get_instance_group reference m no_scope st))
    = [ListCall (scope_args no_scope)] ∧
  calls (fst (lookup_twice reference m no_scope st))
    = [ListCall (scope_args no_scope); ListCall (scope_args no_scope)].
Proof. vm_compute. done. Qed.

Lemma lookup_memoized_when_found_witness :
  let st := AnsibleCloudStackInstanceGroup one_group in
  let m := loadbalancers "present" false in
  let st1 := fst (get_instance_group reference m no_scope st) in
  get_instance_group reference m no_scope st1
    = (st1, inr (Some (new_group 0 "loadbalancers"))).
Proof.
  intros st m st1.
  apply (lookup_memoized_when_found reference m no_scope st st1).
  - vm_compute. reflexivity.
  - vm_compute. reflexivity.
Defined.

(** ** Reconciliation *)

Section Reconciliation.
Context {St : Type}.
Variable client : CloudStack St.
Variable module : AnsibleModule.
Variable scope : resolver.

Local Abbreviation lookup := (get_instance_group client module scope).
Local Abbreviation present := (present_instance_group client module scope).
Local Abbreviation absent := (absent_instance_group client module scope).
Local Abbreviation new := AnsibleCloudStackInstanceGroup.
Local Abbreviation create_request := (CreateCall (create_args module scope)).

Lemma present_instance_group_unfold (st : self St) :
  present st =
    match lookup st with
    | (st1, inl e) => (st1, inl e)
    | (st1, inr found) =>
        if truthy found then (st1, inr found)
        else if check_mode module then (mark_changed st1, inr found)
        else
          let '(s', r) := createInstanceGroup client (create_args module scope)
                                              (cs st1) in
          let st2 := after_call (mark_changed st1) s' create_request in
          match r with
          | inl e => (st2, inl (Raise e))
          | inr res =>
              match c_errortext res with
              | Some e => (st2, inl (SystemExit (failed e)))
              | None =>
                  match c_instancegroup res with
                  | Some g => (st2, inr (Some g))
                  | None => (st2, inl (Raise (KeyError "instancegroup")))
                  end
              end
          end
    end.
Proof.
  unfold present_instance_group, bind at 1.
  destruct (lookup st) as [st1 [e|found]]; [done|].
  destruct (truthy found); [done|]. simpl.
  unfold bind, set_result. fold (mark_changed st1).
  destruct (check_mode module); [done|]. simpl.
  unfold request. simpl.
  destruct (createInstanceGroup _ _ _) as [s' [e|res]]; [done|].
  destruct (c_errortext res); [done|]. simpl.
  by destruct (c_instancegroup res).
Qed.

Lemma absent_instance_group_unfold (st : self St) :
  absent st =
    match lookup st with
    | (st1, inl e) => (st1, inl e)
    | (st1, inr found) =>
        if negb (truthy found) then (st1, inr found)
        else if check_mode module then (mark_changed st1, inr found)
        else
          match found ≫= (.!! "id") with
          | None => (mark_changed st1, inl (Raise (KeyError "id")))
          | Some i =>
              let request := DeleteCall {[ "id" := Some i ]} in
              let '(s', r) := deleteInstanceGroup client {[ "id" := Some i ]}
                                                  (cs st1) in
              let st2 := after_call (mark_changed st1) s' request in
              match r with
              | inl e => (st2, inl (Raise e))
              | inr res =>
                  match d_errortext res with
                  | Some e => (st2, inl (SystemExit (failed e)))
                  | None => (st2, inr found)
                  end
              end
          end
    end.
Proof.
  unfold absent_instance_group, bind at 1.
  destruct (lookup st) as [st1 [e|found]]; [done|].
  destruct (truthy found); [|done]. simpl.
  unfold bind, set_result. fold (mark_changed st1).
  destruct (check_mode module); [done|]. simpl.
  destruct (found ≫= _) as [i|]; [|done].
  unfold request. simpl.
  destruct (deleteInstanceGroup _ _ _) as [s' [e|res]]; [done|].
  by destruct (d_errortext res).
Qed.

(** On a new object a lookup that returns nothing usable returns [None],
    and one that returns a group returns one with an id. *)
Lemma lookup_new_cases (s : St) (st1 : self St) found :
  lookup (new s) = (st1, inr found) →
  (truthy found = false ∧ found = None) ∨
  (∃ g i, found = Some g ∧ truthy found = true ∧ g !! "id" = Some i ∧
          matches (name module) g).
Proof.
  intros Hrun. pose proof (get_instance_group_fresh_found _ _ _ _ _ _ Hrun) as Hf.
  destruct found as [g|]; [right|by left].
  destruct Hf as [Hwf Hm]. pose proof Hwf as [_ [i Hi]].
  exists g, i. split; [done|]. split; [by apply well_formed_truthy|done].
Qed.

Lemma create_args_lookup :
  create_args module scope !! "name" = Some (Some (name module)) ∧
  create_args module scope !! "account" = Some (get_account scope "name") ∧
  create_args module scope !! "domainid" = Some (get_domain scope "id") ∧
  create_args module scope !! "projectid" = Some (get_project scope "id") ∧
  dom (create_args module scope)
    = ({[ "name"; "account"; "domainid"; "projectid" ]} : gset string).
Proof.
  unfold create_args. repeat split; try by simplify_map_eq.
Qed.

(** C1. ensurePresent on a new object, given what the lookup returns. A
    found group is returned as it is, nothing further is sent and [changed]
    stays false. With no group found [changed] becomes true; in dry-run mode
    nothing is sent and none is returned; otherwise one create request is
    sent, carrying the name and the resolved account, domain and project
    values, and when the store answers with a descriptor and no error text,
    that descriptor is returned. *)
Theorem present_instance_group_spec (s : St) (st1 : self St) found :
  lookup (new s) = (st1, inr found) →
  let run := present (new s) in
  (truthy found = true →
     run = (st1, inr found) ∧
     result (fst run) !! "changed" = Some (PyBool false)) ∧
  (truthy found = false →
     result (fst run) !! "changed" = Some (PyBool true) ∧
     (check_mode module = true → run = (mark_changed st1, inr None)) ∧
     (check_mode module = false →
        calls (fst run) = calls st1 ++ [create_request] ∧
        create_args module scope !! "name" = Some (Some (name module)) ∧
        create_args module scope !! "account" = Some (get_account scope "name") ∧
        create_args module scope !! "domainid" = Some (get_domain scope "id") ∧
        create_args module scope !! "projectid" = Some (get_project scope "id") ∧
        ∀ s' res g,
          createInstanceGroup client (create_args module scope) (cs st1)
            = (s', inr res) →
          c_errortext res = None →
          c_instancegroup res = Some g →
          run = (after_call (mark_changed st1) s' create_request, inr (Some g)))).
Proof.
  intros Hrun run. unfold run. rewrite present_instance_group_unfold, Hrun.
  destruct (get_instance_group_fresh_calls _ _ _ _ _ _ Hrun) as (_ & _ & Hres).
  split; intros Hfound; rewrite Hfound.
  - split; [done|]. simpl. by rewrite Hres.
  - destruct (lookup_new_cases _ _ _ Hrun) as [[_ ->]|(g & i & _ & Ht & _)];
      [|congruence].
    split.
    { destruct (check_mode module); [by simplify_map_eq|].
      destruct (createInstanceGroup _ _ _) as [s' [e|res]]; [by simplify_map_eq|].
      destruct (c_errortext res); [by simplify_map_eq|].
      destruct (c_instancegroup res); by simplify_map_eq. }
    split; intros Hmode; rewrite Hmode; [done|].
    destruct create_args_lookup as (Hn & Ha & Hd & Hp & _).
    repeat (split; [first [exact Hn|exact Ha|exact Hd|exact Hp|idtac]|]).
    { destruct (createInstanceGroup _ _ _) as [s' [e|res]]; [done|].
      destruct (c_errortext res); [done|]. by destruct (c_instancegroup res). }
    intros s' res g Hcreate Herr Hg. by rewrite Hcreate, Herr, Hg.
Qed.

(** C2. ensureAbsent on a new object, given what the lookup returns. With
    no group found none is returned, nothing is sent and [changed] stays
    false. A found group carries an id and [changed] becomes true; in dry-run
    mode nothing is sent; otherwise one delete request keyed by that id is
    sent; either way the descriptor found before the deletion is returned
    (when the store answers the delete without error text). *)
Theorem absent_instance_group_spec (s : St) (st1 : self St) found :
  lookup (new s) = (st1, inr found) →
  let run := absent (new s) in
  (truthy found = false →
     run = (st1, inr None) ∧
     result (fst run) !! "changed" = Some (PyBool false)) ∧
  (truthy found = true →
     ∃ g i, found = Some g ∧ g !! "id" = Some i ∧
     result (fst run) !! "changed" = Some (PyBool true) ∧
     (check_mode module = true → run = (mark_changed st1, inr (Some g))) ∧
     (check_mode module = false →
        calls (fst run) = calls st1 ++ [DeleteCall {[ "id" := Some i ]}] ∧
        ∀ s' res,
          deleteInstanceGroup client {[ "id" := Some i ]} (cs st1) = (s', inr res) →
          d_errortext res = None →
          run = (after_call (mark_changed st1) s' (DeleteCall {[ "id" := Some i ]}),
                 inr (Some g)))).
Proof.
  intros Hrun run. unfold run. rewrite absent_instance_group_unfold, Hrun.
  destruct (get_instance_group_fresh_calls _ _ _ _ _ _ Hrun) as (_ & _ & Hres).
  destruct (lookup_new_cases _ _ _ Hrun)
    as [[Hf ->]|(g & i & -> & Ht & Hi & _)]; rewrite ?Hf, ?Ht; simpl negb; cbv iota.
  - split; [intros _|done]. split; [done|]. simpl. by rewrite Hres.
  - split; [done|intros _]. exists g, i. split; [done|]. split; [done|].
    simpl. rewrite Hi. split.
    { destruct (check_mode module); [by simplify_map_eq|].
      destruct (deleteInstanceGroup _ _ _) as [s' [e|res]]; [by simplify_map_eq|].
      destruct (d_errortext res); by simplify_map_eq. }
    split; intros Hmode; rewrite Hmode; [done|]. split.
    { destruct (deleteInstanceGroup _ _ _) as [s' [e|res]]; [done|].
      by destruct (d_errortext res). }
    intros s' res Hdelete Herr. by rewrite Hdelete, Herr.
Qed.

(** An abort of the reconciling step is an abort of the [try] block. *)
Lemma reconcile_abort (st st' : self St) e :
  (if bool_decide (state module = "absent") then absent else present) st
    = (st', inl e) →
  reconcile client module scope st = (st', inl e).
Proof. intros Hstep. unfold reconcile, bind. by rewrite Hstep. Qed.

Lemma failed_carries e : ∃ pre post, failed e = pre +:+ e +:+ post.
Proof. by exists "Failed: '", "'". Qed.

(** C5. Outside dry-run mode, when the answer to the create request, or to
    the delete request, has an error text [e], the operation stops in
    [fail_json] with the message [Failed: 'e']: the mutating request is the
    last call sent, and the invocation ends as a failure with that message
    instead of a result record. *)
Theorem mutation_error_fatal (s : St) (st1 : self St) found :
  check_mode module = false →
  lookup (new s) = (st1, inr found) →
  (truthy found = false →
   ∀ s' res e,
     createInstanceGroup client (create_args module scope) (cs st1) = (s', inr res) →
     c_errortext res = Some e →
     present (new s) = (after_call (mark_changed st1) s' create_request,
                        inl (SystemExit (failed e))) ∧
     (state module ≠ "absent" →
      main client module scope true s
        = (s', calls st1 ++ [create_request], failed_json (failed e)))) ∧
  (∀ g i, found = Some g → g !! "id" = Some i →
   ∀ s' res e,
     deleteInstanceGroup client {[ "id" := Some i ]} (cs st1) = (s', inr res) →
     d_errortext res = Some e →
     absent (new s) = (after_call (mark_changed st1) s'
                                  (DeleteCall {[ "id" := Some i ]}),
                       inl (SystemExit (failed e))) ∧
     (state module = "absent" →
      main client module scope true s
        = (s', calls st1 ++ [DeleteCall {[ "id" := Some i ]}],
           failed_json (failed e)))) ∧
  (∀ e, ∃ pre post, failed e = pre +:+ e +:+ post).
Proof.
  intros Hmode Hrun. split; [|split; [|apply failed_carries]].
  - intros Hfound s' res e Hcreate Herr.
    assert (Hp : present (new s) = (after_call (mark_changed st1) s' create_request,
                                    inl (SystemExit (failed e)))).
    { rewrite present_instance_group_unfold, Hrun, Hfound, Hmode, Hcreate.
      cbv zeta. by rewrite Herr. }
    split; [done|]. intros Hstate. unfold main. simpl negb. cbv iota.
    erewrite reconcile_abort;
      [|rewrite bool_decide_eq_false_2 by done; exact Hp]. done.
  - intros g i -> Hi s' res e Hdelete Herr.
    destruct (lookup_new_cases _ _ _ Hrun) as [[_ ?]|(? & ? & _ & Ht & _)];
      [done|].
    assert (Ha : absent (new s)
                 = (after_call (mark_changed st1) s' (DeleteCall {[ "id" := Some i ]}),
                    inl (SystemExit (failed e)))).
    { rewrite absent_instance_group_unfold, Hrun, Ht, Hmode. simpl.
      rewrite Hi, Hdelete. by rewrite Herr. }
    split; [done|]. intros Hstate. unfold main. simpl negb. cbv iota.
    erewrite reconcile_abort;
      [|rewrite bool_decide_eq_true_2 by done; exact Ha]. done.
Qed.

(** What the two operations do on a new object once the lookup returned:
    the whole outcome where nothing is sent, the log and the flag where a
    request is. *)
Lemma present_instance_group_outcome (s : St) (st1 : self St) found :
  lookup (new s) = (st1, inr found) →
  let run := present (new s) in
  if truthy found then run = (st1, inr found)
  else if check_mode module then run = (mark_changed st1, inr found)
  else calls run.1 = calls st1 ++ [create_request] ∧
       result run.1 !! "changed" = Some (PyBool true).
Proof.
  intros Hrun. cbv zeta. rewrite present_instance_group_unfold, Hrun.
  destruct (truthy found); [done|]. destruct (check_mode module); [done|].
  destruct (createInstanceGroup _ _ _) as [s' [e|res]];
    [|destruct (c_errortext res); [|destruct (c_instancegroup res)]];
    simpl; split; by simplify_map_eq.
Qed.

Lemma absent_instance_group_outcome (s : St) (st1 : self St) found :
  lookup (new s) = (st1, inr found) →
  let run := absent (new s) in
  if negb (truthy found) then run = (st1, inr found)
  else if check_mode module then run = (mark_changed st1, inr found)
  else ∃ i, found ≫= (.!! "id") = Some i ∧
            calls run.1 = calls st1 ++ [DeleteCall {[ "id" := Some i ]}] ∧
            result run.1 !! "changed" = Some (PyBool true).
Proof.
  intros Hrun. cbv zeta. rewrite absent_instance_group_unfold, Hrun.
  destruct (lookup_new_cases _ _ _ Hrun)
    as [[Hf ->]|(g & i & -> & Ht & Hi & _)]; rewrite ?Hf, ?Ht; simpl negb; cbv iota;
    [done|].
  destruct (check_mode module); [done|]. simpl. rewrite Hi. exists i.
  split; [done|].
  destruct (deleteInstanceGroup _ _ _) as [s' [e|res]];
    [|destruct (d_errortext res)]; simpl; split; by simplify_map_eq.
Qed.

Lemma present_instance_group_abort (st st1 : self St) e :
  lookup st = (st1, inl e) → present st = (st1, inl e).
Proof. intros Hrun. by rewrite present_instance_group_unfold, Hrun. Qed.

Lemma absent_instance_group_abort (st st1 : self St) e :
  lookup st = (st1, inl e) → absent st = (st1, inl e).
Proof. intros Hrun. by rewrite absent_instance_group_unfold, Hrun. Qed.

End Reconciliation.

(** ** Dry-run mode *)

(** C3. In dry-run mode ensurePresent and ensureAbsent on a new object send
    the list query of the lookup and nothing else, and the store is where
    that query left it. The [changed] flag they leave tells what the same
    operation does outside dry-run mode: ensurePresent reports [changed]
    true exactly when no group was found, which is when the real operation
    sends its create request, and false when a group was found, where the
    real operation sends nothing; ensureAbsent reports [changed] true exactly
    when a group was found, which is when the real operation sends the delete
    request keyed by the group's id, and false otherwise. The flag also equals
    the one the real operation leaves. With no group found ensurePresent
    returns none; a lookup that aborts aborts both operations in both modes
    with [changed] still false. *)
Theorem dry_run_no_mutation {St} (client : CloudStack St) (module : AnsibleModule)
    (scope : resolver) (s : St) :
  check_mode module = true →
  let p := present_instance_group client module scope
             (AnsibleCloudStackInstanceGroup s) in
  let a := absent_instance_group client module scope
             (AnsibleCloudStackInstanceGroup s) in
  let real := with_check_mode false module in
  let real_p := present_instance_group client real scope
                  (AnsibleCloudStackInstanceGroup s) in
  let real_a := absent_instance_group client real scope
                  (AnsibleCloudStackInstanceGroup s) in
  (calls (fst p) = [ListCall (scope_args scope)] ∧
   Forall (λ c, is_list_call c = true) (calls (fst p)) ∧
   cs (fst p) = fst (listInstanceGroups client (scope_args scope) s)) ∧
  (calls (fst a) = [ListCall (scope_args scope)] ∧
   Forall (λ c, is_list_call c = true) (calls (fst a)) ∧
   cs (fst a) = fst (listInstanceGroups client (scope_args scope) s)) ∧
  result (fst p) !! "changed" = result (fst real_p) !! "changed" ∧
  result (fst a) !! "changed" = result (fst real_a) !! "changed" ∧
  (∀ st1 found,
     get_instance_group client module scope (AnsibleCloudStackInstanceGroup s)
       = (st1, inr found) →
     (truthy found = false →
        p = (mark_changed st1, inr None) ∧
        result (fst p) !! "changed" = Some (PyBool true) ∧
        calls (fst real_p)
          = [ListCall (scope_args scope); CreateCall (create_args module scope)] ∧
        a = (st1, inr None) ∧
        result (fst a) !! "changed" = Some (PyBool false) ∧
        calls (fst real_a) = [ListCall (scope_args scope)]) ∧
     (truthy found = true →
        p = (st1, inr found) ∧
        result (fst p) !! "changed" = Some (PyBool false) ∧
        calls (fst real_p) = [ListCall (scope_args scope)] ∧
        a = (mark_changed st1, inr found) ∧
        result (fst a) !! "changed" = Some (PyBool true) ∧
        ∃ i, found ≫= (.!! "id") = Some i ∧
             calls (fst real_a)
               = [ListCall (scope_args scope); DeleteCall {[ "id" := Some i ]}])) ∧
  (∀ st1 e,
     get_instance_group client module scope (AnsibleCloudStackInstanceGroup s)
       = (st1, inl e) →
     p = (st1, inl e) ∧ a = (st1, inl e) ∧
     real_p = (st1, inl e) ∧ real_a = (st1, inl e) ∧
     result st1 !! "changed" = Some (PyBool false)).
Proof.
  intros Hdry p a real real_p real_a.
  destruct (get_instance_group client module scope _) as [st1 o] eqn:Hrun.
  assert (Hreal_run : get_instance_group client real scope
                        (AnsibleCloudStackInstanceGroup s) = (st1, o)) by exact Hrun.
  destruct (get_instance_group_fresh_calls _ _ _ _ _ _ Hrun) as (Hcalls & Hcs & Hres).
  assert (Hinit : result st1 !! "changed" = Some (PyBool false))
    by (by rewrite Hres).
  assert (Hmarked : result (mark_changed st1) !! "changed" = Some (PyBool true))
    by (simpl; by simplify_map_eq).
  assert (Hlist : Forall (λ c, is_list_call c = true) (calls st1))
    by (rewrite Hcalls; by repeat constructor).
  destruct o as [e|found].
  { pose proof (present_instance_group_abort _ _ _ _ _ _ Hrun) as Hp.
    pose proof (absent_instance_group_abort _ _ _ _ _ _ Hrun) as Ha.
    pose proof (present_instance_group_abort _ _ _ _ _ _ Hreal_run) as Hrp.
    pose proof (absent_instance_group_abort _ _ _ _ _ _ Hreal_run) as Hra.
    fold p in Hp. fold a in Ha. fold real_p in Hrp. fold real_a in Hra.
    rewrite Hp, Ha, Hrp, Hra. simpl.
    do 4 (split; [done|]). split; [done|]. by intros st0 e0 [= <- <-]. }
  pose proof (present_instance_group_outcome _ _ _ _ _ _ Hrun) as Hp.
  pose proof (absent_instance_group_outcome _ _ _ _ _ _ Hrun) as Ha.
  pose proof (present_instance_group_outcome _ _ _ _ _ _ Hreal_run) as Hrp.
  pose proof (absent_instance_group_outcome _ _ _ _ _ _ Hreal_run) as Hra.
  cbv zeta in Hp, Ha, Hrp, Hra. rewrite Hdry in Hp, Ha.
  change (check_mode real) with false in Hrp, Hra.
  change (create_args real scope) with (create_args module scope) in Hrp.
  fold p in Hp. fold a in Ha. fold real_p in Hrp. fold real_a in Hra.
  rewrite Hcalls in Hrp, Hra.
  destruct (truthy found) eqn:Ht; simpl negb in Ha, Hra; cbv iota in Ha, Hra.
  - destruct Hra as (i & Hi & Hra_calls & Hra_changed).
    rewrite Hp, Ha, Hrp. simpl fst.
    split; [done|]. split; [done|]. split; [done|].
    split; [by rewrite Hmarked, Hra_changed|]. split; [|by intros st0 e0 [=]].
    intros st0 found0 [= <- <-]. split; [intros Hc; congruence|intros _].
    do 5 (split; [done|]). by exists i.
  - destruct Hrp as [Hrp_calls Hrp_changed].
    assert (found = None) as ->.
    { destruct (lookup_new_cases _ _ _ _ _ _ Hrun) as [[_ ?]|(? & ? & _ & ? & _)];
        [done|congruence]. }
    rewrite Hp, Ha, Hra. simpl fst.
    split; [done|]. split; [done|].
    split; [by rewrite Hmarked, Hrp_changed|].
    split; [done|]. split; [|by intros st0 e0 [=]].
    intros st0 found0 [= <- <-]. split; [intros _|intros Hc; congruence].
    by do 5 (split; [done|]).
Qed.

(** ** Projection *)

Lemma copy_fold_lookup (g : descriptor) (ks : list string) (r : result_map) k :
  foldl (copy g) r ks !! k =
    if decide (k ∈ ks)
    then match g !! k with Some v => Some (PyStr v) | None => r !! k end
    else r !! k.
Proof.
  revert r. induction ks as [|k0 ks IH]; intros r; cbn [foldl].
  { destruct (decide (k ∈ [])) as [Hin|]; [by apply elem_of_nil in Hin|done]. }
  rewrite IH.
  assert (Hstep : copy g r k0 !! k =
                    if decide (k = k0)
                    then match g !! k with Some v => Some (PyStr v) | None => r !! k end
                    else r !! k).
  { unfold copy. destruct (decide (k = k0)) as [->|Hk].
    - destruct (g !! k0); by simplify_map_eq.
    - destruct (g !! k0); by simplify_map_eq. }
  rewrite Hstep.
  rewrite (decide_ext (k ∈ k0 :: ks) (k = k0 ∨ k ∈ ks)) by apply elem_of_cons.
  destruct (decide (k = k0)) as [Hk|Hk], (decide (k ∈ ks)) as [Hks|Hks].
  - rewrite decide_True by tauto. by destruct (g !! k).
  - by rewrite decide_True by tauto.
  - rewrite decide_True by tauto. by destruct (g !! k).
  - by rewrite decide_False by tauto.
Qed.

Lemma project_lookup (g : descriptor) (r : result_map) k :
  project g r !! k =
    if decide (k ∈ projected)
    then match g !! k with Some v => Some (PyStr v) | None => r !! k end
    else r !! k.
Proof. apply copy_fold_lookup. Qed.

Lemma get_result_unfold {St} (st : self St) (ig : option descriptor) :
  get_result ig st =
    let res := match ig with
               | Some g => project g (result st)
               | None => result st
               end in
    (Build_self (cs st) (calls st) (instance_group st) res, inr res).
Proof.
  destruct st as [c l i r].
  unfold get_result, bind, copy_field, set_result, ret, get_self_result,
    project, copy.
  destruct ig as [g|]; [|done]. simpl.
  case_bool_decide as Hg.
  - repeat match goal with
           | |- context [g !! ?k] =>
               lazymatch goal with
               | H : g !! k = _ |- _ => fail
               | _ => destruct (g !! k) eqn:?
               end
           end; reflexivity.
  - assert (g = ∅) as -> by (by destruct (decide (g = ∅))).
    by rewrite !lookup_empty.
Qed.

(** C8. Projection. For every descriptor [g], [get_result] returns (it never
    fails) and returns the result mapping it leaves on the object, touching
    nothing else; under each of the six keys the mapping holds [g]'s value
    when [g] has the key and what it held before otherwise, so the keys of
    the mapping are the ones it had plus the keys of [g] among the six: a
    field absent from [g] gets no entry. *)
Theorem get_result_projection {St} (st : self St) (g : descriptor) :
  ∃ res,
    get_result (Some g) st
      = (Build_self (cs st) (calls st) (instance_group st) res, inr res) ∧
    Forall (λ k, res !! k = match g !! k with
                            | Some v => Some (PyStr v)
                            | None => result st !! k
                            end) projected ∧
    dom res = dom (result st) ∪ (dom g ∩ list_to_set projected).
Proof.
  exists (project g (result st)). split; [by rewrite get_result_unfold|]. split.
  - apply Forall_forall. intros k Hk. rewrite project_lookup.
    by rewrite decide_True.
  - apply set_eq. intros k.
    rewrite elem_of_union, elem_of_intersection, elem_of_list_to_set.
    rewrite !elem_of_dom, project_lookup.
    destruct (decide (k ∈ projected)) as [Hk|Hk].
    + destruct (g !! k) as [v|] eqn:Hg.
      * split; [intros _; right; split; [by eexists|done]|by eexists].
      * split; [by left|]. intros [?|[[? ?] _]]; [done|congruence].
    + split; [by left|]. intros [?|[_ ?]]; done.
Qed.

Lemma project_empty (r : result_map) : project ∅ r = r.
Proof. unfold project, copy. simpl. by rewrite !lookup_empty. Qed.

Lemma projected_not_changed k : k ∈ projected → k ≠ "changed".
Proof.
  intros Hk ->. unfold projected in Hk.
  repeat (apply elem_of_cons in Hk as [Hk|Hk]; [done|]).
  by apply elem_of_nil in Hk.
Qed.

(** When [get_result] runs in [main], the result mapping holds the
    [changed] flag and nothing under the six projected keys. *)
Lemma step_result_keys {St} (client : CloudStack St) (module : AnsibleModule)
    (scope : resolver) (s : St) (st : self St) o :
  (if bool_decide (state module = "absent")
   then absent_instance_group client module scope
   else present_instance_group client module scope)
    (AnsibleCloudStackInstanceGroup s) = (st, o) →
  dom (result st) = {[ "changed" ]}.
Proof.
  assert (Hinit : dom initial_result = ({[ "changed" ]} : gset string))
    by (unfold initial_result; by rewrite dom_singleton_L).
  assert (Hmark : dom (<["changed" := PyBool true]> initial_result)
                  = ({[ "changed" ]} : gset string)).
  { rewrite dom_insert_L, Hinit. set_solver. }
  destruct (bool_decide _).
  - rewrite absent_instance_group_unfold.
    destruct (get_instance_group _ _ _ _) as [st1 o1] eqn:Hrun.
    destruct (get_instance_group_fresh_calls _ _ _ _ _ _ Hrun) as (_ & _ & Hres).
    destruct o1 as [e|found]; [intros [= <- <-]; by rewrite Hres|].
    destruct (negb (truthy found)); [intros [= <- <-]; by rewrite Hres|].
    destruct (check_mode module); [intros [= <- <-]; simpl; by rewrite Hres|].
    destruct (found ≫= _) as [i|]; [|intros [= <- <-]; simpl; by rewrite Hres].
    destruct (deleteInstanceGroup _ _ _) as [s' [e|res]];
      [intros [= <- <-]; simpl; by rewrite Hres|].
    destruct (d_errortext res); intros [= <- <-]; simpl; by rewrite Hres.
  - rewrite present_instance_group_unfold.
    destruct (get_instance_group _ _ _ _) as [st1 o1] eqn:Hrun.
    destruct (get_instance_group_fresh_calls _ _ _ _ _ _ Hrun) as (_ & _ & Hres).
    destruct o1 as [e|found]; [intros [= <- <-]; by rewrite Hres|].
    destruct (truthy found); [intros [= <- <-]; by rewrite Hres|].
    destruct (check_mode module); [intros [= <- <-]; simpl; by rewrite Hres|].
    destruct (createInstanceGroup _ _ _) as [s' [e|res]];
      [intros [= <- <-]; simpl; by rewrite Hres|].
    destruct (c_errortext res); [intros [= <- <-]; simpl; by rewrite Hres|].
    destruct (c_instancegroup res); intros [= <- <-]; simpl; by rewrite Hres.
Qed.

(** C10. Frame of the projection. [get_result] leaves every entry under a
    key other than the six as it was, the [changed] flag in particular, and
    adds keys among the six only; on a mapping with no entry under the six
    keys, which is what it meets in [main], every entry it had is still
    there; and with no descriptor, or an empty one, nothing changes at all. *)
Theorem get_result_frame {St} (st : self St) (ig : option descriptor) :
  ∃ res,
    get_result ig st
      = (Build_self (cs st) (calls st) (instance_group st) res, inr res) ∧
    (∀ k, k ∉ projected → res !! k = result st !! k) ∧
    res !! "changed" = result st !! "changed" ∧
    dom res ⊆ dom (result st) ∪ list_to_set projected ∧
    ((∀ k, k ∈ projected → result st !! k = None) → result st ⊆ res) ∧
    (ig = None ∨ ig = Some ∅ → get_result ig st = (st, inr (result st))) ∧
    (∀ (client : CloudStack St) module scope s o,
       (if bool_decide (state module = "absent")
        then absent_instance_group client module scope
        else present_instance_group client module scope)
         (AnsibleCloudStackInstanceGroup s) = (st, o) →
       ∀ k, k ∈ projected → result st !! k = None).
Proof.
  rewrite get_result_unfold. cbv zeta. eexists. split; [done|].
  assert (Hother : ∀ k, k ∉ projected →
            match ig with
            | Some g => project g (result st)
            | None => result st
            end !! k = result st !! k).
  { intros k Hk. destruct ig as [g|]; [|done].
    rewrite project_lookup. by rewrite decide_False. }
  split; [done|]. split.
  { apply Hother. intros Hk. by apply projected_not_changed in Hk. }
  split.
  { intros k. rewrite elem_of_union, elem_of_list_to_set, !elem_of_dom.
    destruct (decide (k ∈ projected)) as [?|Hk]; [by right|].
    rewrite Hother by done. by left. }
  split.
  { intros Hnone. apply map_subseteq_spec. intros k v Hv.
    destruct (decide (k ∈ projected)) as [Hk|Hk].
    - rewrite Hnone in Hv by done. done.
    - by rewrite Hother. }
  split.
  { intros [->| ->]; destruct st as [c l i r]; simpl; [done|].
    by rewrite project_empty. }
  intros client module scope s o Hstep k Hk.
  apply not_elem_of_dom. rewrite (step_result_keys _ _ _ _ _ _ Hstep).
  apply not_elem_of_singleton. by apply projected_not_changed.
Qed.

Lemma get_result_frame_witness :
  let st := mark_changed (AnsibleCloudStackInstanceGroup empty_store) in
  let ig := Some (new_group 0 "loadbalancers") in
  ("changed" ∉ projected) ∧
  (∀ k, k ∈ projected → result st !! k = None) ∧
  ∃ res, snd (get_result ig st) = inr res ∧
         res !! "changed" = Some (PyBool true) ∧ result st ⊆ res.
Proof.
  intros st ig.
  assert (Hkey : "changed" ∉ projected)
    by (intros Hk; by apply projected_not_changed in Hk).
  assert (Hnone : ∀ k, k ∈ projected → result st !! k = None).
  { intros k Hk. apply projected_not_changed in Hk. simpl.
    unfold initial_result. by simplify_map_eq. }
  split; [exact Hkey|]. split; [exact Hnone|].
  destruct (get_result_frame st ig) as (res & Hrun & Hother & _ & _ & Hsub & _).
  exists res. split; [by rewrite Hrun|]. split; [|by apply Hsub].
  rewrite (Hother "changed" Hkey). reflexivity.
Defined.

(** ** The top level *)

(** C9. Without the client library [main] fails at once: nothing is sent
    and the store is untouched. A CloudStackException with detail [d] raised
    inside the [try] block ends the invocation with the message
    [CloudStackException: d], any other exception with [Exception: d]; so
    does, in particular, an exception raised by the list query. Every
    invocation that does not complete the block ends with [fail_json] and a
    non-zero status; one that completes it ends with [exit_json] and zero. *)
Theorem main_failure_taxonomy {St} (client : CloudStack St)
    (module : AnsibleModule) (scope : resolver) (s : St) :
  let run := reconcile client module scope (AnsibleCloudStackInstanceGroup s) in
  let main := main client module scope in
  main false s = (s, [], failed_json lib_required) ∧
  (∀ st d, run = (st, inl (Raise (CloudStackException d))) →
     main true s = (cs st, calls st, failed_json ("CloudStackException: " +:+ d))) ∧
  (∀ st d, run = (st, inl (Raise (Exception d))) →
     main true s = (cs st, calls st, failed_json ("Exception: " +:+ d))) ∧
  (∀ s' d, listInstanceGroups client (scope_args scope) s
             = (s', inl (CloudStackException d)) →
     main true s = (s', [ListCall (scope_args scope)],
                    failed_json ("CloudStackException: " +:+ d))) ∧
  (∀ s' d, listInstanceGroups client (scope_args scope) s
             = (s', inl (Exception d)) →
     main true s = (s', [ListCall (scope_args scope)],
                    failed_json ("Exception: " +:+ d))) ∧
  (∀ has_lib_cs st a, has_lib_cs = false ∨ run = (st, inl a) →
     (∃ msg, (main has_lib_cs s).2 = failed_json msg) ∧
     exit_status (main has_lib_cs s).2 ≠ 0%Z) ∧
  (∀ st r, run = (st, inr r) →
     main true s = (cs st, calls st, exit_json r) ∧
     exit_status (main true s).2 = 0%Z).
Proof.
  intros run main0. unfold main0, main. simpl negb. cbv iota. fold run.
  assert (Hlist : ∀ s' e, listInstanceGroups client (scope_args scope) s
                          = (s', inl e) →
            run = (after_call (AnsibleCloudStackInstanceGroup s) s'
                              (ListCall (scope_args scope)), inl (Raise e))).
  { intros s' e Hraise. unfold run. apply reconcile_abort.
    assert (Hlookup : get_instance_group client module scope
                        (AnsibleCloudStackInstanceGroup s)
                      = (after_call (AnsibleCloudStackInstanceGroup s) s'
                                    (ListCall (scope_args scope)), inl (Raise e))).
    { rewrite get_instance_group_query by done. simpl. by rewrite Hraise. }
    destruct (bool_decide _).
    - by rewrite absent_instance_group_unfold, Hlookup.
    - by rewrite present_instance_group_unfold, Hlookup. }
  split; [done|].
  split; [by intros st d ->|]. split; [by intros st d ->|].
  split; [intros s' d Hraise; by rewrite (Hlist _ _ Hraise)|].
  split; [intros s' d Hraise; by rewrite (Hlist _ _ Hraise)|].
  split.
  - intros has_lib_cs st a [->|Habort]; [by eauto|].
    destruct has_lib_cs; [|by eauto]. simpl negb. cbv iota. rewrite Habort.
    destruct a as [[d|d]|msg]; by eauto.
  - by intros st r ->.
Qed.

Lemma main_failure_taxonomy_witness :
  let down := unreachable (CloudStackException "connection refused") in
  let m := loadbalancers "present" false in
  listInstanceGroups down (scope_args no_scope) empty_store
    = (empty_store, inl (CloudStackException "connection refused")) ∧
  main down m no_scope true empty_store
    = (empty_store, [ListCall (scope_args no_scope)],
       failed_json "CloudStackException: connection refused").
Proof.
  intros down m. split; [reflexivity|].
  destruct (main_failure_taxonomy down m no_scope empty_store)
    as (_ & _ & _ & Hlist & _).
  apply (Hlist empty_store "connection refused"). reflexivity.
Defined.

(** ** The scenarios of the specification, on the reference store *)

(** Scenario A: no group named loadbalancers exists, state present. *)
Lemma present_instance_group_spec_witness :
  let m := loadbalancers "present" false in
  let new := AnsibleCloudStackInstanceGroup empty_store in
  let st1 := (get_instance_group reference m no_scope new).1 in
  get_instance_group reference m no_scope new = (st1, inr None) ∧
  present_instance_group reference m no_scope new
    = (after_call (mark_changed st1) one_group (CreateCall (create_args m no_scope)),
       inr (Some (new_group 0 "loadbalancers"))).
Proof.
  intros m new st1. unfold new in *. clear new.
  assert (Hrun : get_instance_group reference m no_scope
                   (AnsibleCloudStackInstanceGroup empty_store) = (st1, inr None))
    by (vm_compute; reflexivity).
  split; [exact Hrun|].
  destruct (present_instance_group_spec reference m no_scope empty_store st1 None Hrun)
    as [_ Hnone].
  destruct Hnone as (_ & _ & Hreal); [reflexivity|].
  destruct Hreal as (_ & _ & _ & _ & _ & Hcreate); [reflexivity|].
  apply (Hcreate one_group
           {| c_errortext := None;
              c_instancegroup := Some (new_group 0 "loadbalancers") |});
    vm_compute; reflexivity.
Defined.

(** Scenario C: the group exists, state absent. *)
Lemma absent_instance_group_spec_witness :
  let m := loadbalancers "absent" false in
  let new := AnsibleCloudStackInstanceGroup one_group in
  let g := new_group 0 "loadbalancers" in
  let st1 := (get_instance_group reference m no_scope new).1 in
  get_instance_group reference m no_scope new = (st1, inr (Some g)) ∧
  calls (absent_instance_group reference m no_scope new).1
    = [ListCall (scope_args no_scope); DeleteCall {[ "id" := Some "ig-0" ]}] ∧
  (absent_instance_group reference m no_scope new).2 = inr (Some g).
Proof.
  intros m new g st1. unfold new in *. clear new.
  assert (Hrun : get_instance_group reference m no_scope
                   (AnsibleCloudStackInstanceGroup one_group) = (st1, inr (Some g)))
    by (vm_compute; reflexivity).
  split; [exact Hrun|].
  destruct (absent_instance_group_spec reference m no_scope one_group st1 (Some g) Hrun)
    as [_ Hsome].
  destruct Hsome as (g' & i & Hg & Hi & _ & _ & Hreal); [vm_compute; reflexivity|].
  injection Hg as <-.
  assert (i = "ig-0") as -> by (vm_compute in Hi; congruence).
  destruct Hreal as [Hcalls Hdelete]; [reflexivity|].
  split; [rewrite Hcalls; vm_compute; reflexivity|].
  rewrite (Hdelete {| next_id := 1; groups := [] |}
             {| d_errortext := None; d_success := Some "true" |});
    [reflexivity|vm_compute; reflexivity|reflexivity].
Defined.

(** Dry run with no group: nothing but the list query, [changed] reported. *)
Lemma dry_run_no_mutation_witness :
  let m := loadbalancers "present" true in
  let p := present_instance_group reference m no_scope
             (AnsibleCloudStackInstanceGroup empty_store) in
  check_mode m = true ∧
  calls p.1 = [ListCall (scope_args no_scope)] ∧
  cs p.1 = empty_store ∧
  p.2 = inr None ∧
  result p.1 !! "changed" = Some (PyBool true).
Proof.
  intros m p. split; [reflexivity|].
  destruct (dry_run_no_mutation reference m no_scope empty_store)
    as ((Hcalls & _ & Hcs) & _ & _ & _ & Hfound & _); [reflexivity|].
  split; [exact Hcalls|]. split; [exact Hcs|].
  destruct (Hfound (get_instance_group reference m no_scope
                      (AnsibleCloudStackInstanceGroup empty_store)).1 None)
    as [Hnone _]; [vm_compute; reflexivity|].
  destruct (Hnone eq_refl) as (Hp & Hchanged & _).
  split; [|exact Hchanged]. unfold p. by rewrite Hp.
Defined.

(** The error scenario: the create request is answered with the error text
    quota exceeded. *)
Lemma mutation_error_fatal_witness :
  let m := loadbalancers "present" false in
  let service := refusing "quota exceeded" in
  check_mode m = false ∧
  main service m no_scope true empty_store
    = (empty_store,
       [ListCall (scope_args no_scope); CreateCall (create_args m no_scope)],
       failed_json "Failed: 'quota exceeded'").
Proof.
  intros m service. split; [reflexivity|].
  set (st1 := (get_instance_group service m no_scope
                 (AnsibleCloudStackInstanceGroup empty_store)).1).
  destruct (mutation_error_fatal service m no_scope empty_store st1 None)
    as (Hcreate & _ & _); [reflexivity|vm_compute; reflexivity|].
  destruct (Hcreate eq_refl empty_store
              {| c_errortext := Some "quota exceeded"; c_instancegroup := None |}
              "quota exceeded") as [_ Hmain]; [reflexivity|reflexivity|].
  rewrite Hmain; [reflexivity|]. intros Hstate. discriminate Hstate.
Defined.

(** ** Two invocations in a row *)

Section Idempotence.
Context {St : Type}.
Variable client : CloudStack St.
Variable visible : kwargs → St → list descriptor.
Variable module : AnsibleModule.
Variable scope : resolver.
Hypothesis quiet : no_interference client visible.

Local Abbreviation a := (scope_args scope).
Local Abbreviation n := (name module).
Local Abbreviation new := AnsibleCloudStackInstanceGroup.
Local Abbreviation present := (present_instance_group client module scope).
Local Abbreviation absent := (absent_instance_group client module scope).

Lemma create_args_scope_args :
  create_args module scope = <["name" := Some n]> a.
Proof.
  unfold create_args, scope_args. apply map_eq. intros k.
  destruct (decide (k = "name")) as [->|?]; [by simplify_map_eq|].
  destruct (decide (k = "account")) as [->|?]; [by simplify_map_eq|].
  destruct (decide (k = "domainid")) as [->|?]; [by simplify_map_eq|].
  destruct (decide (k = "projectid")) as [->|?]; by simplify_map_eq.
Qed.

(** Against such a store a lookup on a new object is the scan of what is
    visible, and leaves the store alone. *)
Lemma lookup_visible (s : St) :
  get_instance_group client module scope (new s) =
    match first_match n (visible a s) with
    | inl e => (after_call (new s) s (ListCall a), inl (Raise e))
    | inr (Some g) => (Build_self s [ListCall a] (Some g) initial_result, inr (Some g))
    | inr None => (after_call (new s) s (ListCall a), inr None)
    end.
Proof.
  rewrite get_instance_group_query by done.
  destruct (list_visible _ _ quiet a s) as (r & Hlist & Hr). simpl.
  rewrite Hlist. cbv zeta. unfold scan. rewrite Hr.
  by destruct (first_match n (visible a s)) as [e|[g|]].
Qed.

Lemma present_found (s : St) g :
  first_match n (visible a s) = inr (Some g) →
  present (new s) = (Build_self s [ListCall a] (Some g) initial_result, inr (Some g)).
Proof.
  intros Hfound. rewrite present_instance_group_unfold, lookup_visible, Hfound.
  apply first_match_found in Hfound as (_ & _ & Hwf).
  by rewrite (well_formed_truthy g Hwf).
Qed.

Lemma absent_not_found (s : St) :
  first_match n (visible a s) = inr None →
  absent (new s) = (after_call (new s) s (ListCall a), inr None).
Proof.
  intros Hnone. by rewrite absent_instance_group_unfold, lookup_visible, Hnone.
Qed.

(** C7, as the code has it: outside dry-run mode and against a store free of
    interference. After an ensurePresent that returned, a second one returns
    the same descriptor, reports [changed] false and sends nothing but the
    list query; the first reported [changed] true if no listed group matched
    the name. After an ensureAbsent that returned, with the listed
    descriptors well formed and all listed groups that match the name (as
    name or as id) sharing one id, a second one finds nothing, reports
    [changed] false and sends nothing but the list query; the first reported
    [changed] true if some listed group matched. *)
Theorem reconcile_idempotent (s : St) :
  check_mode module = false →
  (∀ st1 d, present (new s) = (st1, inr d) →
     ((∀ g, g ∈ visible a s → ¬ matches n g) →
        result st1 !! "changed" = Some (PyBool true)) ∧
     ∃ st2, present (new (cs st1)) = (st2, inr d) ∧
            result st2 !! "changed" = Some (PyBool false) ∧
            calls st2 = [ListCall a] ∧ cs st2 = cs st1) ∧
  (∀ st1 d, absent (new s) = (st1, inr d) →
     Forall well_formed (visible a s) →
     (∀ g h, g ∈ visible a s → h ∈ visible a s →
             matches n g → matches n h → g !! "id" = h !! "id") →
     ((∃ g, g ∈ visible a s ∧ matches n g) →
        result st1 !! "changed" = Some (PyBool true) ∧ is_Some d) ∧
     ∃ st2, absent (new (cs st1)) = (st2, inr None) ∧
            result st2 !! "changed" = Some (PyBool false) ∧
            calls st2 = [ListCall a] ∧ cs st2 = cs st1).
Proof.
  intros Hreal. split.
  - intros st1 d. destruct (first_match n (visible a s)) as [e|[g|]] eqn:Hfirst.
    + by rewrite present_instance_group_unfold, lookup_visible, Hfirst.
    + rewrite (present_found s g Hfirst). intros [= <- <-]. simpl. split.
      * intros Hno. apply first_match_found in Hfirst as (Hin & Hm & _).
        by destruct (Hno g Hin).
      * eexists. rewrite (present_found s g Hfirst). by repeat split.
    + rewrite present_instance_group_unfold, lookup_visible, Hfirst, Hreal.
      simpl truthy. cbv iota. rewrite create_args_scope_args.
      destruct (createInstanceGroup _ _ _) as [s' [e|res]] eqn:Hcreate; [done|].
      cbv zeta. destruct (c_errortext res) eqn:Herr; [done|].
      destruct (c_instancegroup res) as [g|] eqn:Hg; [|done].
      intros [= <- <-]. split; [intros _; simpl; by simplify_map_eq|].
      destruct (create_visible _ _ quiet a n s s' res g Hcreate Herr Hg)
        as (Hname & Hid & Hvis).
      apply first_match_none in Hfirst. rewrite Forall_forall in Hfirst.
      assert (Hsecond : first_match n (visible a s') = inr (Some g)).
      { apply first_match_unique.
        - apply Forall_forall. intros h Hh. apply Hvis in Hh as [->|Hold].
          + split; [by eexists|done].
          + by destruct (Hfirst h Hold).
        - apply Hvis. by left.
        - by left.
        - intros h Hh Hm. apply Hvis in Hh as [->|Hold]; [done|].
          by destruct (Hfirst h Hold) as [_ []]. }
      eexists. simpl cs. rewrite (present_found s' g Hsecond). by repeat split.
  - intros st1 d Hrun Hwf Hone.
    pose proof (first_match_list_find n _ Hwf) as Hfirst.
    destruct (list_find (matches n) (visible a s)) as [[j g]|] eqn:Hfind;
      simpl in Hfirst.
    + apply list_find_Some in Hfind as (Hj & Hm & _).
      assert (Hin : g ∈ visible a s) by (by eapply list_elem_of_lookup_2).
      assert (Hg : well_formed g) by (rewrite Forall_forall in Hwf; auto).
      destruct (Hg) as [_ [i Hi]].
      rewrite absent_instance_group_unfold, lookup_visible, Hfirst, Hreal in Hrun.
      rewrite (well_formed_truthy g Hg) in Hrun. simpl in Hrun. rewrite Hi in Hrun.
      destruct (deleteInstanceGroup _ _ _) as [s' [e|res]] eqn:Hdelete; [done|].
      destruct (d_errortext res) eqn:Herr; [done|].
      injection Hrun as <- <-. split; [intros _; simpl; by simplify_map_eq|].
      pose proof (delete_visible _ _ quiet a i s s' res Hdelete Herr) as Hvis.
      assert (Hsecond : first_match n (visible a s') = inr None).
      { apply first_match_none, Forall_forall. intros h Hh.
        apply Hvis in Hh as [Hold Hother]. rewrite Forall_forall in Hwf.
        split; [auto|]. intros Hmh. apply Hother.
        rewrite <- Hi. symmetry. by apply Hone. }
      eexists. simpl cs. rewrite (absent_not_found s' Hsecond). by repeat split.
    + rewrite (absent_not_found s Hfirst) in Hrun. injection Hrun as <- <-.
      split.
      * intros (g & Hin & Hm). apply list_find_None in Hfind.
        rewrite Forall_forall in Hfind. by destruct (Hfind g Hin).
      * eexists. simpl cs. rewrite (absent_not_found s Hfirst). by repeat split.
Qed.

End Idempotence.

(** The reference store is free of interference. *)
Lemma reference_no_interference : no_interference reference all_groups.
Proof.
  split.
  - intros a s. exists (listing (groups s)). split; [done|].
    unfold all_groups. by destruct (groups s).
  - intros a n s s' r g. simpl. unfold store_create. rewrite lookup_insert_eq.
    intros [= <- <-]. simpl. intros _ [= <-]. unfold all_groups. simpl.
    split; [unfold new_group; by simplify_map_eq|].
    split; [unfold new_group; by simplify_map_eq|].
    intros g'. rewrite elem_of_app, list_elem_of_singleton. tauto.
  - intros a i s s' r. simpl. unfold store_delete. rewrite lookup_singleton_eq.
    intros [= <- <-] _ g'. unfold all_groups. simpl.
    rewrite list_elem_of_filter. tauto.
Qed.

(** C7 as stated fails in dry-run mode, where nothing is created or deleted
    and the second invocation reports [changed] true again, and it fails for
    ensureAbsent when a second listed group has the name as its id. *)
Lemma reconcile_not_idempotent :
  twice (present_instance_group reference (loadbalancers "present" true) no_scope)
        empty_store
    = ((Some (PyBool true), inr None), (Some (PyBool true), inr None)) ∧
  twice (absent_instance_group reference (loadbalancers "absent" true) no_scope)
        one_group
    = ((Some (PyBool true), inr (Some (new_group 0 "loadbalancers"))),
       (Some (PyBool true), inr (Some (new_group 0 "loadbalancers")))) ∧
  twice (absent_instance_group reference drop_ig1 no_scope) ambiguous
    = ((Some (PyBool true), inr (Some (new_group 0 "ig-1"))),
       (Some (PyBool true), inr (Some (new_group 1 "webservers")))).
Proof. vm_compute. done. Qed.

(** Scenarios A then B, and C then D. *)
Lemma reconcile_idempotent_witness :
  let create := loadbalancers "present" false in
  let remove := loadbalancers "absent" false in
  no_interference reference all_groups ∧
  check_mode create = false ∧
  twice (present_instance_group reference create no_scope) empty_store
    = ((Some (PyBool true), inr (Some (new_group 0 "loadbalancers"))),
       (Some (PyBool false), inr (Some (new_group 0 "loadbalancers")))) ∧
  twice (absent_instance_group reference remove no_scope) one_group
    = ((Some (PyBool true), inr (Some (new_group 0 "loadbalancers"))),
       (Some (PyBool false), inr None)).
Proof.
  intros create remove.
  split; [exact reference_no_interference|]. split; [reflexivity|]. split.
  - destruct (reconcile_idempotent reference all_groups create no_scope
                reference_no_interference empty_store eq_refl) as [Hpresent _].
    destruct (present_instance_group reference create no_scope
                (AnsibleCloudStackInstanceGroup empty_store)) as [st1 o] eqn:Hfirst.
    assert (Ho : o = inr (Some (new_group 0 "loadbalancers"))).
    { change o with (st1, o).2. rewrite <- Hfirst. vm_compute. reflexivity. }
    subst o. destruct (Hpresent st1 _ eq_refl) as [Hchanged (st2 & Hsecond & Hfalse & _)].
    unfold twice. rewrite Hfirst. simpl fst. simpl snd. rewrite Hsecond. simpl.
    rewrite Hfalse, Hchanged; [reflexivity|].
    intros g Hg. vm_compute in Hg. by apply elem_of_nil in Hg.
  - destruct (reconcile_idempotent reference all_groups remove no_scope
                reference_no_interference one_group eq_refl) as [_ Habsent].
    destruct (absent_instance_group reference remove no_scope
                (AnsibleCloudStackInstanceGroup one_group)) as [st1 o] eqn:Hfirst.
    assert (Ho : o = inr (Some (new_group 0 "loadbalancers"))).
    { change o with (st1, o).2. rewrite <- Hfirst. vm_compute. reflexivity. }
    subst o.
    destruct (Habsent st1 _ eq_refl) as [Hchanged (st2 & Hsecond & Hfalse & _)].
    + repeat constructor; apply new_group_well_formed.
    + intros g h Hg Hh _ _.
      apply list_elem_of_singleton in Hg, Hh. by subst.
    + unfold twice. rewrite Hfirst. simpl fst. simpl snd. rewrite Hsecond. simpl.
      rewrite Hfalse. destruct Hchanged as [-> _]; [|reflexivity].
      exists (new_group 0 "loadbalancers"). split; [by left|].
      left. unfold new_group. by simplify_map_eq.
Defined.

(** * Further properties of the invocation as a whole *)

Section Invocation.
Context {St : Type}.
Variable client : CloudStack St.
Variable module : AnsibleModule.
Variable scope : resolver.

Local Abbreviation a := (scope_args scope).
Local Abbreviation n := (name module).
Local Abbreviation new := AnsibleCloudStackInstanceGroup.
Local Abbreviation lookup := (get_instance_group client module scope).
Local Abbreviation step :=
  (if bool_decide (state module = "absent")
   then absent_instance_group client module scope
   else present_instance_group client module scope).
Local Abbreviation run := (main client module scope).

(** [main] with the library present: the reconciling step, then the
    projection of what it returned or the report of how it aborted. *)
Lemma main_unfold (s : St) :
  run true s =
    let '(st, o) := step (new s) in
    (cs st, calls st,
     match o with
     | inl e => failed_json (failure_message e)
     | inr ig => exit_json match ig with
                           | Some g => project g (result st)
                           | None => result st
                           end
     end).
Proof.
  unfold main, reconcile, bind. simpl negb. cbv iota.
  destruct (step (new s)) as [st [e|ig]].
  - by destruct e as [[d|d]|msg].
  - by rewrite get_result_unfold.
Qed.

(** The ways the reconciling step can go on a new object. *)
Lemma step_shapes (s : St) :
  ∃ st1 o1,
    lookup (new s) = (st1, o1) ∧
    calls st1 = [ListCall a] ∧
    cs st1 = (listInstanceGroups client a s).1 ∧
    result st1 = initial_result ∧
    ((∃ e, o1 = inl e ∧ step (new s) = (st1, inl e)) ∨
     (∃ found, o1 = inr found ∧ step (new s) = (st1, inr found) ∧
               truthy found = negb (bool_decide (state module = "absent"))) ∨
     (∃ found, o1 = inr found ∧ check_mode module = true ∧
               step (new s) = (mark_changed st1, inr found) ∧
               truthy found = bool_decide (state module = "absent")) ∨
     (∃ c s' o, check_mode module = false ∧
                ((state module ≠ "absent" ∧ c = CreateCall (create_args module scope)) ∨
                 (state module = "absent" ∧ ∃ i, c = DeleteCall {[ "id" := Some i ]})) ∧
                step (new s) = (after_call (mark_changed st1) s' c, o))).
Proof.
  destruct (lookup (new s)) as [st1 o1] eqn:Hrun. exists st1, o1.
  destruct (get_instance_group_fresh_calls _ _ _ _ _ _ Hrun) as (Hcalls & Hcs & Hres).
  split; [done|]. split; [done|]. split; [done|]. split; [done|].
  case_bool_decide as Hstate.
  - rewrite absent_instance_group_unfold, Hrun.
    destruct o1 as [e|found]; [left; by eauto|].
    destruct (lookup_new_cases _ _ _ _ _ _ Hrun)
      as [[Hf ->]|(g & i & -> & Ht & Hi & _)]; rewrite ?Hf, ?Ht; simpl negb; cbv iota.
    + right; left. by eauto.
    + destruct (check_mode module); [right; right; left; by eauto|].
      simpl. rewrite Hi.
      destruct (deleteInstanceGroup _ _ _) as [s' [e|res]];
        [|destruct (d_errortext res)];
        right; right; right; eexists _, s', _; (split; [done|]);
        (split; [right; split; [done|by eexists]|done]).
  - rewrite present_instance_group_unfold, Hrun.
    destruct o1 as [e|found]; [left; by eauto|].
    destruct (truthy found) eqn:Ht; [right; left; by eauto|].
    destruct (check_mode module); [right; right; left; by eauto|].
    destruct (createInstanceGroup _ _ _) as [s' [e|res]];
      [|destruct (c_errortext res); [|destruct (c_instancegroup res)]];
      right; right; right; eexists _, s', _; (split; [done|]);
      (split; [left; by split|done]).
Qed.

(** X1. Call discipline. Whatever the client answers, an invocation sends
    nothing without the library; otherwise it sends the list query first and
    then at most one more request, which is the create request of this
    module when the state is not absent, or a delete request keyed by an id
    when it is, and which is sent outside check mode only. *)
Theorem main_call_discipline (has_lib_cs : bool) (s : St) :
  let log := (run has_lib_cs s).1.2 in
  (has_lib_cs = false ∧ log = []) ∨
  (has_lib_cs = true ∧ log = [ListCall a]) ∨
  (has_lib_cs = true ∧ check_mode module = false ∧ state module ≠ "absent" ∧
   log = [ListCall a; CreateCall (create_args module scope)]) ∨
  (has_lib_cs = true ∧ check_mode module = false ∧ state module = "absent" ∧
   ∃ i, log = [ListCall a; DeleteCall {[ "id" := Some i ]}]).
Proof.
  destruct has_lib_cs; [|by left]. right. rewrite main_unfold.
  destruct (step_shapes s) as (st1 & o1 & _ & Hcalls & _ & _ & Hshape).
  destruct Hshape as [(e & _ & ->)|[(found & _ & -> & _)|
                      [(found & _ & _ & -> & _)|(c & s' & o & Hreal & Hc & ->)]]];
    simpl; rewrite Hcalls; [by left..|].
  right. destruct Hc as [[Hstate ->]|[Hstate [i ->]]]; [left|right]; eauto.
Qed.

Lemma reported_changed (ig : option descriptor) (r : result_map) :
  match ig with Some g => project g r | None => r end !! "changed"
  = r !! "changed".
Proof.
  destruct ig as [g|]; [|done]. rewrite project_lookup.
  destruct (decide ("changed" ∈ projected)) as [Hk|]; [|done].
  by apply projected_not_changed in Hk.
Qed.

(** X2. What the [changed] flag of a successful invocation tells. The
    result always carries the flag. When it is false, the list query is all
    that was sent and the store is where that query left it. When it is true
    outside check mode, exactly one create or delete request followed the
    list query; in check mode nothing followed it. *)
Theorem changed_tells_mutation (has_lib_cs : bool) (s s' : St) log r :
  run has_lib_cs s = (s', log, exit_json r) →
  ∃ b, r !! "changed" = Some (PyBool b) ∧
       (b = false →
          log = [ListCall a] ∧ s' = (listInstanceGroups client a s).1) ∧
       (b = true → check_mode module = false →
          ∃ c, log = [ListCall a; c] ∧ mutating c = true) ∧
       (b = true → check_mode module = true →
          log = [ListCall a] ∧ s' = (listInstanceGroups client a s).1).
Proof.
  destruct has_lib_cs; [|done]. rewrite main_unfold.
  destruct (step_shapes s) as (st1 & o1 & _ & Hcalls & Hcs & Hres & Hshape).
  destruct Hshape as [(e & _ & ->)|[(found & _ & -> & _)|
                      [(found & _ & Hdry & -> & _)|(c & s1 & o & Hreal & Hc & ->)]]].
  - done.
  - intros [= <- <- <-]. exists false. rewrite reported_changed, Hres.
    split; [done|]. split; [by rewrite Hcalls, Hcs|]. by split.
  - intros [= <- <- <-]. exists true. rewrite reported_changed. simpl.
    split; [by simplify_map_eq|]. split; [done|].
    split; [congruence|]. by rewrite Hcalls, Hcs.
  - destruct o as [e|ig]; [done|]. intros [= <- <- <-]. exists true.
    rewrite reported_changed. simpl. split; [by simplify_map_eq|].
    split; [done|]. split; [|congruence]. intros _ _. exists c.
    rewrite Hcalls. split; [done|].
    by destruct Hc as [[_ ->]|[_ [i ->]]].
Qed.

(** X3. Shape of the result record. A successful invocation reports a
    boolean under [changed] and, besides it, only strings under keys among
    id, created, name, project, domain and account. *)
Theorem main_result_shape (has_lib_cs : bool) (s s' : St) log r :
  run has_lib_cs s = (s', log, exit_json r) →
  (∃ b, r !! "changed" = Some (PyBool b)) ∧
  dom r ⊆ {[ "changed" ]} ∪ list_to_set projected ∧
  (∀ k v, r !! k = Some v → k ≠ "changed" →
          k ∈ projected ∧ ∃ str, v = PyStr str).
Proof.
  destruct has_lib_cs; [|done]. rewrite main_unfold.
  destruct (step (new s)) as [st [e|ig]] eqn:Hstep; [done|].
  intros [= <- <- <-].
  pose proof (step_result_keys _ _ _ _ _ _ Hstep) as Hdom.
  assert (Hflag : ∃ b, result st !! "changed" = Some (PyBool b)).
  { destruct (step_shapes s) as (st1 & o1 & _ & _ & _ & Hres & Hshape).
    rewrite Hstep in Hshape.
    destruct Hshape as [(e & _ & [=])|[(found & _ & [= -> _] & _)|
                        [(found & _ & _ & [= -> _] & _)|(c & s1 & o & _ & _ & [= -> _])]]].
    - exists false. by rewrite Hres.
    - exists true. simpl. by simplify_map_eq.
    - exists true. simpl. by simplify_map_eq. }
  assert (Hother : ∀ k, k ≠ "changed" → result st !! k = None).
  { intros k Hk. apply not_elem_of_dom. rewrite Hdom. set_solver. }
  assert (Hfield : ∀ k v,
            match ig with Some g => project g (result st) | None => result st end
              !! k = Some v →
            k ≠ "changed" → k ∈ projected ∧ ∃ str, v = PyStr str).
  { intros k v Hv Hk. destruct ig as [g|]; [|by rewrite Hother in Hv].
    rewrite project_lookup in Hv.
    destruct (decide (k ∈ projected)); [|by rewrite Hother in Hv].
    split; [done|]. destruct (g !! k) as [str|]; [|by rewrite Hother in Hv].
    exists str. congruence. }
  split; [by rewrite reported_changed|]. split; [|done].
  intros k Hk. apply elem_of_dom in Hk as [v Hv].
  destruct (decide (k = "changed")) as [->|Hne]; [set_solver|].
  apply elem_of_union_r, elem_of_list_to_set. by eapply Hfield.
Qed.

Lemma project_changed (g : descriptor) (r : result_map) :
  project g r !! "changed" = r !! "changed".
Proof. apply (reported_changed (Some g)). Qed.

Lemma project_fields (g : descriptor) (r : result_map) :
  (∀ k, k ∈ projected → r !! k = None) →
  Forall (λ k, project g r !! k = PyStr <$> g !! k) projected.
Proof.
  intros Hnone. apply Forall_forall. intros k Hk.
  rewrite project_lookup, decide_True by done.
  destruct (g !! k); [done|]. by apply Hnone.
Qed.

Lemma initial_no_fields k : k ∈ projected → initial_result !! k = None.
Proof.
  intros Hk. apply projected_not_changed in Hk.
  unfold initial_result. by simplify_map_eq.
Qed.

Lemma marked_no_fields k :
  k ∈ projected → <["changed" := PyBool true]> initial_result !! k = None.
Proof.
  intros Hk. pose proof (projected_not_changed _ Hk).
  rewrite lookup_insert_ne by done. by apply initial_no_fields.
Qed.

(** X4. What is reported for a group the lookup found. With a state other
    than absent the invocation sends nothing further and reports [changed]
    false with the group's fields. With state absent it reports [changed]
    true with the fields the group had when it was found: in check mode
    without sending anything, otherwise after a delete request keyed by the
    group's id that was answered without error text, whatever else the
    answer holds. *)
Theorem main_reports_found_group (s : St) (st1 : self St) (g : descriptor) :
  lookup (new s) = (st1, inr (Some g)) →
  let reports (b : bool) (r : result_map) :=
    r !! "changed" = Some (PyBool b) ∧
    Forall (λ k, r !! k = PyStr <$> g !! k) projected in
  (state module ≠ "absent" →
     ∃ r, run true s = (cs st1, [ListCall a], exit_json r) ∧ reports false r) ∧
  (state module = "absent" → check_mode module = true →
     ∃ r, run true s = (cs st1, [ListCall a], exit_json r) ∧ reports true r) ∧
  (state module = "absent" → check_mode module = false →
     ∃ i, g !! "id" = Some i ∧
     ∀ s' res,
       deleteInstanceGroup client {[ "id" := Some i ]} (cs st1) = (s', inr res) →
       d_errortext res = None →
       ∃ r, run true s
              = (s', [ListCall a; DeleteCall {[ "id" := Some i ]}], exit_json r) ∧
            reports true r).
Proof.
  intros Hrun reports.
  destruct (get_instance_group_fresh_calls _ _ _ _ _ _ Hrun) as (Hcalls & _ & Hres).
  destruct (lookup_new_cases _ _ _ _ _ _ Hrun)
    as [[_ [=]]|(g' & i & [= <-] & Ht & Hi & _)].
  split; [|split].
  - intros Hstate. rewrite main_unfold, bool_decide_eq_false_2 by done.
    rewrite present_instance_group_unfold, Hrun, Ht, Hcalls, Hres.
    eexists. split; [done|]. split; [by rewrite project_changed|].
    apply project_fields, initial_no_fields.
  - intros Hstate Hdry. rewrite main_unfold, bool_decide_eq_true_2 by done.
    rewrite absent_instance_group_unfold, Hrun, Ht, Hdry. simpl.
    rewrite Hcalls, Hres. eexists. split; [done|].
    split; [rewrite project_changed; by simplify_map_eq|].
    apply project_fields, marked_no_fields.
  - intros Hstate Hreal. exists i. split; [done|]. intros s' res Hdelete Herr.
    rewrite main_unfold, bool_decide_eq_true_2 by done.
    rewrite absent_instance_group_unfold, Hrun, Ht, Hreal. simpl.
    rewrite Hi, Hdelete, Herr. simpl. rewrite Hcalls, Hres.
    eexists. split; [done|].
    split; [rewrite project_changed; by simplify_map_eq|].
    apply project_fields, marked_no_fields.
Qed.

(** X5. Check mode fails nowhere but in the lookup. In check mode, once the
    lookup has returned, the invocation succeeds with the list query as its
    only request; and when the lookup found nothing the result record is the
    [changed] flag alone: true unless the state is absent. *)
Theorem check_mode_never_fails (s : St) (st1 : self St) found :
  check_mode module = true →
  lookup (new s) = (st1, inr found) →
  ∃ r, run true s = (cs st1, [ListCall a], exit_json r) ∧
       (found = None →
        r = {[ "changed" := PyBool (negb (bool_decide (state module = "absent"))) ]}).
Proof.
  intros Hdry Hrun.
  destruct (get_instance_group_fresh_calls _ _ _ _ _ _ Hrun) as (Hcalls & _ & Hres).
  rewrite main_unfold. case_bool_decide as Hstate.
  - rewrite absent_instance_group_unfold, Hrun, Hdry.
    destruct (truthy found) eqn:Ht; simpl; rewrite Hcalls.
    + eexists. split; [done|]. intros ->. done.
    + eexists. split; [done|]. intros ->. by rewrite Hres.
  - rewrite present_instance_group_unfold, Hrun, Hdry.
    destruct (truthy found) eqn:Ht; simpl; rewrite Hcalls.
    + eexists. split; [done|]. intros ->. done.
    + eexists. split; [done|]. intros ->. rewrite Hres.
      apply insert_singleton_eq.
Qed.

Lemma first_match_skip (pre rest : list descriptor) :
  Forall (λ h, well_formed h ∧ ¬ matches n h) pre →
  first_match n (pre ++ rest) = first_match n rest.
Proof.
  induction 1 as [|h pre [Hwf Hno] _ IH]; [done|].
  rewrite <- app_comm_cons, first_match_cons by done.
  by rewrite decide_False.
Qed.

(** An abort of the lookup on a new object ends the invocation with its
    report, the list query being all that was sent. *)
Lemma main_lookup_abort (s : St) (st1 : self St) e :
  lookup (new s) = (st1, inl e) →
  run true s = (cs st1, [ListCall a], failed_json (failure_message e)).
Proof.
  intros Hrun.
  destruct (get_instance_group_fresh_calls _ _ _ _ _ _ Hrun) as (Hcalls & _ & _).
  rewrite main_unfold. destruct (bool_decide _).
  - by rewrite absent_instance_group_unfold, Hrun, Hcalls.
  - by rewrite present_instance_group_unfold, Hrun, Hcalls.
Qed.

Lemma lookup_scan (s s' : St) resp :
  listInstanceGroups client a s = (s', inr resp) →
  lookup (new s) =
    match scan n resp with
    | inl e => (after_call (new s) s' (ListCall a), inl (Raise e))
    | inr (Some g) => (Build_self s' [ListCall a] (Some g) initial_result, inr (Some g))
    | inr None => (after_call (new s) s' (ListCall a), inr None)
    end.
Proof.
  intros Hlist. rewrite get_instance_group_query by done. simpl.
  rewrite Hlist. cbv zeta. by destruct (scan n resp) as [e|[g|]].
Qed.

(** X6. A listed entry without a name or without an id. When the entries
    listed before [g] all carry both keys and none of them matches, and [g]
    lacks the key name, the invocation fails with [Exception: 'name']; when
    [g] has a name but lacks the key id it fails with [Exception: 'id'],
    even if that name is the one looked for and whatever is listed after
    [g]. Nothing but the list query is sent. *)
Theorem lookup_missing_key (s s' : St) resp pre g rest :
  listInstanceGroups client a s = (s', inr resp) →
  l_instancegroup resp = Some (pre ++ g :: rest) →
  Forall (λ h, well_formed h ∧ ¬ matches n h) pre →
  (g !! "name" = None →
     run true s = (s', [ListCall a], failed_json "Exception: 'name'")) ∧
  (is_Some (g !! "name") → g !! "id" = None →
     run true s = (s', [ListCall a], failed_json "Exception: 'id'")).
Proof.
  intros Hlist Hgs Hpre.
  assert (Hscan : scan n resp = first_match n (g :: rest)).
  { unfold scan, listed, nonempty_response. rewrite Hgs.
    rewrite (bool_decide_eq_true_2 (is_Some (Some _))) by eauto.
    rewrite orb_true_r. by apply first_match_skip. }
  split.
  - intros Hname.
    rewrite (main_lookup_abort s (after_call (new s) s' (ListCall a))
               (Raise (KeyError "name"))); [done|].
    rewrite (lookup_scan _ _ _ Hlist), Hscan. simpl. by rewrite Hname.
  - intros [gn Hname] Hid.
    rewrite (main_lookup_abort s (after_call (new s) s' (ListCall a))
               (Raise (KeyError "id"))); [done|].
    rewrite (lookup_scan _ _ _ Hlist), Hscan. simpl. by rewrite Hname, Hid.
Qed.

(** X7. The shapes of a list answer. An empty answer, and an answer whose
    collection is empty, mean that no group was found: the lookup returns
    none and caches nothing. A non-empty answer without the key
    instancegroup makes the invocation fail with
    [Exception: 'instancegroup']. *)
Theorem list_answer_shapes (s s' : St) resp :
  listInstanceGroups client a s = (s', inr resp) →
  let not_found := (after_call (new s) s' (ListCall a), inr None) in
  (l_count resp = None → l_instancegroup resp = None →
     lookup (new s) = not_found) ∧
  (l_instancegroup resp = Some [] → lookup (new s) = not_found) ∧
  (is_Some (l_count resp) → l_instancegroup resp = None →
     run true s = (s', [ListCall a], failed_json "Exception: 'instancegroup'")).
Proof.
  intros Hlist not_found. rewrite (lookup_scan _ _ _ Hlist).
  unfold scan, listed, nonempty_response. split; [|split].
  - intros -> ->. done.
  - intros ->. by destruct (bool_decide _ || bool_decide _).
  - intros Hcount Hnone.
    rewrite (main_lookup_abort s (after_call (new s) s' (ListCall a))
               (Raise (KeyError "instancegroup"))); [done|].
    rewrite (lookup_scan _ _ _ Hlist). unfold scan, listed, nonempty_response.
    rewrite Hnone. by rewrite (bool_decide_eq_true_2 _ Hcount).
Qed.

(** X8. A create answer without a descriptor. Outside check mode, when no
    group was found and the create request is answered with neither an error
    text nor the key instancegroup, the invocation fails with
    [Exception: 'instancegroup']; the create request has been sent and the
    store is where it left it. *)
Theorem create_answer_without_group (s : St) (st1 : self St) found s' res :
  state module ≠ "absent" →
  check_mode module = false →
  lookup (new s) = (st1, inr found) →
  truthy found = false →
  createInstanceGroup client (create_args module scope) (cs st1) = (s', inr res) →
  c_errortext res = None →
  c_instancegroup res = None →
  run true s = (s', [ListCall a; CreateCall (create_args module scope)],
                failed_json "Exception: 'instancegroup'").
Proof.
  intros Hstate Hreal Hrun Hfound Hcreate Herr Hnone.
  destruct (get_instance_group_fresh_calls _ _ _ _ _ _ Hrun) as (Hcalls & _ & _).
  rewrite main_unfold, bool_decide_eq_false_2 by done.
  rewrite present_instance_group_unfold, Hrun, Hfound, Hreal, Hcreate.
  cbv zeta. rewrite Herr, Hnone. simpl. by rewrite Hcalls.
Qed.

(** X9. An exception raised by a mutating request. Outside check mode, when
    the create request (no group found, state not absent) or the delete
    request (group found, state absent) raises [e], the invocation fails with
    the report of [e]: [CloudStackException: d] or [Exception: d]. The
    request is the last one sent, and the store is where it left it. *)
Theorem mutation_exception_reported (s : St) (st1 : self St) found s' e :
  check_mode module = false →
  lookup (new s) = (st1, inr found) →
  (state module ≠ "absent" → truthy found = false →
   createInstanceGroup client (create_args module scope) (cs st1) = (s', inl e) →
   run true s = (s', [ListCall a; CreateCall (create_args module scope)],
                 failed_json (failure_message (Raise e)))) ∧
  (state module = "absent" →
   ∀ g i, found = Some g → g !! "id" = Some i →
   deleteInstanceGroup client {[ "id" := Some i ]} (cs st1) = (s', inl e) →
   run true s = (s', [ListCall a; DeleteCall {[ "id" := Some i ]}],
                 failed_json (failure_message (Raise e)))).
Proof.
  intros Hreal Hrun.
  destruct (get_instance_group_fresh_calls _ _ _ _ _ _ Hrun) as (Hcalls & _ & _).
  split.
  - intros Hstate Hfound Hcreate.
    rewrite main_unfold, bool_decide_eq_false_2 by done.
    rewrite present_instance_group_unfold, Hrun, Hfound, Hreal, Hcreate.
    simpl. by rewrite Hcalls.
  - intros Hstate g i -> Hi Hdelete.
    destruct (lookup_new_cases _ _ _ _ _ _ Hrun) as [[_ [=]]|(? & ? & _ & Ht & _)].
    rewrite main_unfold, bool_decide_eq_true_2 by done.
    rewrite absent_instance_group_unfold, Hrun, Ht, Hreal. simpl.
    rewrite Hi, Hdelete. simpl. by rewrite Hcalls.
Qed.

Lemma lookup_queries (st : self St) :
  truthy (instance_group st) = false →
  calls (lookup st).1 = calls st ++ [ListCall a].
Proof.
  intros Hc. rewrite get_instance_group_query by done.
  destruct (listInstanceGroups _ _ _) as [s' [e|resp]]; [done|]. cbv zeta.
  by destruct (scan _ resp) as [e|[g|]].
Qed.

(** X10. The cache after the reconciling step, on any object. After an
    ensureAbsent that returned a group, also one it has just deleted, that
    group stays cached: a further lookup on the object sends nothing and
    returns it. After an ensurePresent whose lookup found nothing, also one
    that has just created the group, the cache is still empty: a further
    lookup on the object sends the list query again. *)
Theorem cache_after_step (st st' : self St) d :
  (absent_instance_group client module scope st = (st', inr d) →
   truthy d = true →
   lookup st' = (st', inr d)) ∧
  (present_instance_group client module scope st = (st', inr d) →
   ∀ st1 found, lookup st = (st1, inr found) → truthy found = false →
   instance_group st' = found ∧
   calls (lookup st').1 = calls st' ++ [ListCall a]).
Proof.
  split.
  - rewrite absent_instance_group_unfold.
    destruct (lookup st) as [st1 [e|found]] eqn:Hrun; [done|].
    destruct (get_instance_group_returns _ _ _ _ _ _ Hrun) as [Hcache _].
    destruct (truthy found) eqn:Ht; simpl.
    2:{ intros [= <- <-] Hd. congruence. }
    assert (Hkept : ∀ st2 : self St, instance_group st2 = found →
              lookup st2 = (st2, inr found)).
    { intros st2 <-. by apply get_instance_group_cached. }
    destruct (check_mode module); [intros [= <- <-] _; by apply Hkept|].
    destruct (found ≫= _) as [i|]; [|done].
    destruct (deleteInstanceGroup _ _ _) as [s' [e|res]]; [done|].
    destruct (d_errortext res); [done|].
    intros [= <- <-] _. by apply Hkept.
  - rewrite present_instance_group_unfold. intros Hp st1 found Hrun Hfound.
    rewrite Hrun, Hfound in Hp.
    destruct (get_instance_group_returns _ _ _ _ _ _ Hrun) as [Hcache _].
    assert (Hempty : ∀ st2 : self St, instance_group st2 = found →
              instance_group st2 = found ∧
              calls (lookup st2).1 = calls st2 ++ [ListCall a]).
    { intros st2 Hst2. split; [done|]. apply lookup_queries. by rewrite Hst2. }
    destruct (check_mode module); [injection Hp as <- <-; by apply Hempty|].
    destruct (createInstanceGroup _ _ _) as [s' [e|res]]; [done|].
    destruct (c_errortext res); [done|].
    destruct (c_instancegroup res); [|done].
    injection Hp as <- <-. by apply Hempty.
Qed.

End Invocation.

(** ** Projecting twice *)

Lemma project_project (g1 g2 : descriptor) (r : result_map) k :
  project g2 (project g1 r) !! k =
    if decide (k ∈ projected)
    then match g2 !! k with
         | Some v => Some (PyStr v)
         | None => match g1 !! k with
                   | Some v => Some (PyStr v)
                   | None => r !! k
                   end
         end
    else r !! k.
Proof.
  rewrite !project_lookup. destruct (decide (k ∈ projected)); [|done].
  by destruct (g2 !! k).
Qed.

(** X11. The result mapping accumulates. Projecting a second descriptor on
    the same object overwrites the fields the second one has and keeps the
    fields only the first one had; projecting the same descriptor again
    changes nothing. *)
Theorem get_result_accumulates {St} (st : self St) (g1 g2 : descriptor) :
  ∃ r,
    get_result_twice (Some g1) (Some g2) st
      = (Build_self (cs st) (calls st) (instance_group st) r, inr r) ∧
    Forall (λ k, r !! k = match g2 !! k with
                          | Some v => Some (PyStr v)
                          | None => match g1 !! k with
                                    | Some v => Some (PyStr v)
                                    | None => result st !! k
                                    end
                          end) projected ∧
    get_result_twice (Some g1) (Some g1) st = get_result (Some g1) st.
Proof.
  assert (Htwice : ∀ g, get_result_twice (Some g1) (Some g) st
            = (Build_self (cs st) (calls st) (instance_group st)
                          (project g (project g1 (result st))),
               inr (project g (project g1 (result st))))).
  { intros g. unfold get_result_twice, bind.
    rewrite (get_result_unfold st). cbv beta iota zeta.
    by rewrite get_result_unfold. }
  eexists. split; [apply Htwice|]. split.
  - apply Forall_forall. intros k Hk. by rewrite project_project, decide_True.
  - rewrite Htwice, get_result_unfold. cbv zeta.
    assert (Hsame : project g1 (project g1 (result st)) = project g1 (result st)).
    { apply map_eq. intros k. rewrite project_project, project_lookup.
      destruct (decide (k ∈ projected)); [|done]. by destruct (g1 !! k). }
    by rewrite Hsame.
Qed.

(** ** Invocations against a store free of interference *)

Section Quiet.
Context {St : Type}.
Variable client : CloudStack St.
Variable visible : kwargs → St → list descriptor.
Variable module : AnsibleModule.
Variable scope : resolver.
Hypothesis quiet : no_interference client visible.

Local Abbreviation a := (scope_args scope).
Local Abbreviation n := (name module).
Local Abbreviation new := AnsibleCloudStackInstanceGroup.
Local Abbreviation run := (main client module scope).

Lemma name_projected : "name" ∈ projected.
Proof. unfold projected. do 2 right. left. Qed.

Lemma id_projected : "id" ∈ projected.
Proof. left. Qed.

(** X12. What a successful ensurePresent reports is in the store. Outside
    check mode and with a state other than absent, a successful invocation
    reports the fields of a group that the store lists once the invocation
    is over and that has the requested name as its name or as its id; the
    result carries a name and an id. *)
Theorem present_reports_listed_group (s s' : St) log r :
  state module ≠ "absent" →
  check_mode module = false →
  run true s = (s', log, exit_json r) →
  ∃ g, g ∈ visible a s' ∧ matches n g ∧
       Forall (λ k, r !! k = PyStr <$> g !! k) projected ∧
       is_Some (r !! "name") ∧ is_Some (r !! "id").
Proof.
  intros Hstate Hreal. rewrite main_unfold, bool_decide_eq_false_2 by done.
  rewrite present_instance_group_unfold, (lookup_visible _ _ _ _ quiet), Hreal.
  assert (Hreport : ∀ g (res : result_map),
            (∀ k, k ∈ projected → res !! k = None) →
            is_Some (g !! "name") → is_Some (g !! "id") →
            Forall (λ k, project g res !! k = PyStr <$> g !! k) projected ∧
            is_Some (project g res !! "name") ∧ is_Some (project g res !! "id")).
  { intros g res Hnone [gn Hn] [gi Hi].
    pose proof (project_fields g res Hnone) as Hfields. split; [done|].
    rewrite Forall_forall in Hfields.
    rewrite (Hfields _ name_projected), (Hfields _ id_projected), Hn, Hi.
    by split; eexists. }
  destruct (first_match n (visible a s)) as [e|[g|]] eqn:Hfirst; [done| |].
  - pose proof Hfirst as (Hin & Hm & Hwf & Hid)%first_match_found.
    rewrite (well_formed_truthy g) by done. intros [= <- <- <-].
    exists g. split; [done|]. split; [done|].
    by apply Hreport; [apply initial_no_fields|..].
  - simpl truthy. cbv iota. rewrite create_args_scope_args.
    destruct (createInstanceGroup _ _ _) as [s1 [e|res]] eqn:Hcreate; [done|].
    cbv zeta. destruct (c_errortext res) eqn:Herr; [done|].
    destruct (c_instancegroup res) as [g|] eqn:Hg; [|done].
    intros [= <- <- <-].
    destruct (create_visible _ _ quiet a n s s1 res g Hcreate Herr Hg)
      as (Hname & Hid & Hvis).
    exists g. split; [apply Hvis; by left|]. split; [by left|].
    apply Hreport; [apply marked_no_fields|by eexists|done].
Qed.

(** X13. What a successful ensureAbsent reports has left the store. Outside
    check mode and with state absent, a successful invocation that reports
    [changed] true reports an id, and the store then lists exactly the groups
    it listed before that do not have this id; one that reports [changed]
    false has left the store alone, and no listed group had the name as its
    name or id. *)
Theorem absent_removes_reported_group (s s' : St) log r :
  state module = "absent" →
  check_mode module = false →
  run true s = (s', log, exit_json r) →
  (r !! "changed" = Some (PyBool true) →
     ∃ i, r !! "id" = Some (PyStr i) ∧
          ∀ h, h ∈ visible a s' ↔ h ∈ visible a s ∧ h !! "id" ≠ Some i) ∧
  (r !! "changed" = Some (PyBool false) →
     s' = s ∧ Forall (λ h, ¬ matches n h) (visible a s)).
Proof.
  intros Hstate Hreal. rewrite main_unfold, bool_decide_eq_true_2 by done.
  rewrite absent_instance_group_unfold, (lookup_visible _ _ _ _ quiet), Hreal.
  destruct (first_match n (visible a s)) as [e|[g|]] eqn:Hfirst; [done| |].
  - pose proof Hfirst as (Hin & Hm & Hwf)%first_match_found.
    rewrite (well_formed_truthy g) by done. simpl negb. cbv iota.
    destruct (Hwf) as [_ [i Hi]]. simpl. rewrite Hi.
    destruct (deleteInstanceGroup _ _ _) as [s1 [e|res]] eqn:Hdelete; [done|].
    destruct (d_errortext res) eqn:Herr; [done|].
    intros [= <- <- <-]. split.
    + intros _. exists i. split.
      * rewrite project_lookup, decide_True by apply id_projected. by rewrite Hi.
      * apply (delete_visible _ _ quiet a i s s1 res Hdelete Herr).
    + rewrite project_changed. simpl. by simplify_map_eq.
  - simpl. intros [= <- <- <-]. split; [done|]. intros _. split; [done|].
    apply first_match_none in Hfirst. eapply Forall_impl; [exact Hfirst|].
    by intros h [_ ?].
Qed.

End Quiet.

(** ** The further properties on concrete runs *)

Lemma changed_tells_mutation_witness :
  let m := loadbalancers "present" false in
  let r : result_map := {[ "changed" := PyBool true; "id" := PyStr "ig-0";
                           "name" := PyStr "loadbalancers" ]} in
  let log := [ListCall (scope_args no_scope); CreateCall (create_args m no_scope)] in
  main reference m no_scope true empty_store = (one_group, log, exit_json r) ∧
  ∃ c, log = [ListCall (scope_args no_scope); c] ∧ mutating c = true.
Proof.
  intros m r log.
  assert (Hrun : main reference m no_scope true empty_store
                 = (one_group, log, exit_json r)) by (vm_compute; reflexivity).
  split; [exact Hrun|].
  destruct (changed_tells_mutation reference m no_scope true empty_store
              one_group log r Hrun) as (b & Hb & _ & Hreal & _).
  apply Hreal; [|reflexivity].
  vm_compute in Hb. congruence.
Defined.

Lemma main_result_shape_witness :
  let m := loadbalancers "present" false in
  let r : result_map := {[ "changed" := PyBool true; "id" := PyStr "ig-0";
                           "name" := PyStr "loadbalancers" ]} in
  let log := [ListCall (scope_args no_scope); CreateCall (create_args m no_scope)] in
  main reference m no_scope true empty_store = (one_group, log, exit_json r) ∧
  dom r ⊆ {[ "changed" ]} ∪ list_to_set projected.
Proof.
  intros m r log.
  assert (Hrun : main reference m no_scope true empty_store
                 = (one_group, log, exit_json r)) by (vm_compute; reflexivity).
  split; [exact Hrun|].
  by destruct (main_result_shape reference m no_scope true empty_store
                 one_group log r Hrun) as (_ & Hdom & _).
Defined.

Lemma main_reports_found_group_witness :
  let m := loadbalancers "present" false in
  let g := new_group 0 "loadbalancers" in
  let st1 := (get_instance_group reference m no_scope
                (AnsibleCloudStackInstanceGroup one_group)).1 in
  get_instance_group reference m no_scope (AnsibleCloudStackInstanceGroup one_group)
    = (st1, inr (Some g)) ∧
  state m ≠ "absent" ∧
  ∃ r, main reference m no_scope true one_group
         = (cs st1, [ListCall (scope_args no_scope)], exit_json r) ∧
       r !! "changed" = Some (PyBool false) ∧
       Forall (λ k, r !! k = PyStr <$> g !! k) projected.
Proof.
  intros m g st1.
  assert (Hrun : get_instance_group reference m no_scope
                   (AnsibleCloudStackInstanceGroup one_group) = (st1, inr (Some g)))
    by (vm_compute; reflexivity).
  assert (Hstate : state m ≠ "absent") by (intros Heq; discriminate Heq).
  split; [exact Hrun|]. split; [exact Hstate|].
  destruct (main_reports_found_group reference m no_scope one_group st1 g Hrun)
    as [Hpresent _].
  exact (Hpresent Hstate).
Defined.

Lemma check_mode_never_fails_witness :
  let m := loadbalancers "present" true in
  let st1 := (get_instance_group reference m no_scope
                (AnsibleCloudStackInstanceGroup empty_store)).1 in
  check_mode m = true ∧
  main reference m no_scope true empty_store
    = (empty_store, [ListCall (scope_args no_scope)],
       exit_json {[ "changed" := PyBool true ]}).
Proof.
  intros m st1. split; [reflexivity|].
  destruct (check_mode_never_fails reference m no_scope empty_store st1 None)
    as (r & Hmain & Hr); [reflexivity|vm_compute; reflexivity|].
  rewrite Hmain, (Hr eq_refl). reflexivity.
Defined.

Lemma lookup_missing_key_witness :
  let m := loadbalancers "present" false in
  let g : descriptor := {[ "name" := "loadbalancers" ]} in
  is_Some (g !! "name") ∧ g !! "id" = None ∧
  main reference m no_scope true without_id
    = (without_id, [ListCall (scope_args no_scope)], failed_json "Exception: 'id'").
Proof.
  intros m g.
  assert (Hname : is_Some (g !! "name")) by (by eexists).
  assert (Hid : g !! "id" = None) by reflexivity.
  split; [exact Hname|]. split; [exact Hid|].
  destruct (lookup_missing_key reference m no_scope without_id without_id
              (listing (groups without_id)) [] g []) as [_ Hmissing].
  - reflexivity.
  - reflexivity.
  - constructor.
  - exact (Hmissing Hname Hid).
Defined.

Lemma list_answer_shapes_witness :
  let m := loadbalancers "present" false in
  let resp := {| l_count := Some 0%Z; l_instancegroup := None |} in
  listInstanceGroups count_only (scope_args no_scope) empty_store
    = (empty_store, inr resp) ∧
  main count_only m no_scope true empty_store
    = (empty_store, [ListCall (scope_args no_scope)],
       failed_json "Exception: 'instancegroup'").
Proof.
  intros m resp. split; [reflexivity|].
  destruct (list_answer_shapes count_only m no_scope empty_store empty_store resp)
    as (_ & _ & Hcount); [reflexivity|].
  apply Hcount; [by eexists|reflexivity].
Defined.

Lemma create_answer_without_group_witness :
  let m := loadbalancers "present" false in
  state m ≠ "absent" ∧ check_mode m = false ∧
  main silent_create m no_scope true empty_store
    = (empty_store,
       [ListCall (scope_args no_scope); CreateCall (create_args m no_scope)],
       failed_json "Exception: 'instancegroup'").
Proof.
  intros m.
  assert (Hstate : state m ≠ "absent") by (intros Heq; discriminate Heq).
  split; [exact Hstate|]. split; [reflexivity|].
  apply (create_answer_without_group silent_create m no_scope empty_store
           (get_instance_group silent_create m no_scope
              (AnsibleCloudStackInstanceGroup empty_store)).1
           None empty_store
           {| c_errortext := None; c_instancegroup := None |});
    [exact Hstate|reflexivity|vm_compute; reflexivity|reflexivity..].
Defined.

Lemma mutation_exception_reported_witness :
  let m := loadbalancers "present" false in
  let down := failing_mutation (CloudStackException "timed out") in
  state m ≠ "absent" ∧ check_mode m = false ∧
  main down m no_scope true empty_store
    = (empty_store,
       [ListCall (scope_args no_scope); CreateCall (create_args m no_scope)],
       failed_json "CloudStackException: timed out").
Proof.
  intros m down.
  assert (Hstate : state m ≠ "absent") by (intros Heq; discriminate Heq).
  split; [exact Hstate|]. split; [reflexivity|].
  destruct (mutation_exception_reported down m no_scope empty_store
              (get_instance_group down m no_scope
                 (AnsibleCloudStackInstanceGroup empty_store)).1
              None empty_store (CloudStackException "timed out"))
    as [Hcreate _]; [reflexivity|vm_compute; reflexivity|].
  apply Hcreate; [exact Hstate|reflexivity|reflexivity].
Defined.

Lemma cache_after_step_witness :
  let m := loadbalancers "absent" false in
  let g := new_group 0 "loadbalancers" in
  let st' := (absent_instance_group reference m no_scope
                (AnsibleCloudStackInstanceGroup one_group)).1 in
  groups (cs st') = [] ∧
  truthy (Some g) = true ∧
  get_instance_group reference m no_scope st' = (st', inr (Some g)).
Proof.
  intros m g st'. split; [vm_compute; reflexivity|].
  assert (Ht : truthy (Some g) = true) by (vm_compute; reflexivity).
  split; [exact Ht|].
  destruct (cache_after_step reference m no_scope
              (AnsibleCloudStackInstanceGroup one_group) st' (Some g))
    as [Habsent _].
  apply Habsent; [vm_compute; reflexivity|exact Ht].
Defined.

Lemma present_reports_listed_group_witness :
  let m := loadbalancers "present" false in
  let r : result_map := {[ "changed" := PyBool true; "id" := PyStr "ig-0";
                           "name" := PyStr "loadbalancers" ]} in
  let log := [ListCall (scope_args no_scope); CreateCall (create_args m no_scope)] in
  no_interference reference all_groups ∧
  state m ≠ "absent" ∧ check_mode m = false ∧
  main reference m no_scope true empty_store = (one_group, log, exit_json r) ∧
  ∃ g, g ∈ groups one_group ∧ matches "loadbalancers" g.
Proof.
  intros m r log.
  assert (Hstate : state m ≠ "absent") by (intros Heq; discriminate Heq).
  assert (Hrun : main reference m no_scope true empty_store
                 = (one_group, log, exit_json r)) by (vm_compute; reflexivity).
  split; [exact reference_no_interference|]. split; [exact Hstate|].
  split; [reflexivity|]. split; [exact Hrun|].
  destruct (present_reports_listed_group reference all_groups m no_scope
              reference_no_interference empty_store one_group log r
              Hstate eq_refl Hrun) as (g & Hin & Hm & _).
  by exists g.
Defined.

Lemma absent_removes_reported_group_witness :
  let m := loadbalancers "absent" false in
  let r : result_map := {[ "changed" := PyBool true; "id" := PyStr "ig-0";
                           "name" := PyStr "loadbalancers" ]} in
  let log := [ListCall (scope_args no_scope); DeleteCall {[ "id" := Some "ig-0" ]}] in
  let gone := {| next_id := 1; groups := [] |} in
  no_interference reference all_groups ∧
  state m = "absent" ∧ check_mode m = false ∧
  main reference m no_scope true one_group = (gone, log, exit_json r) ∧
  r !! "changed" = Some (PyBool true) ∧
  ∃ i, r !! "id" = Some (PyStr i) ∧
       ∀ h, h ∈ groups gone ↔ h ∈ groups one_group ∧ h !! "id" ≠ Some i.
Proof.
  intros m r log gone.
  assert (Hrun : main reference m no_scope true one_group
                 = (gone, log, exit_json r)) by (vm_compute; reflexivity).
  assert (Hchanged : r !! "changed" = Some (PyBool true)) by reflexivity.
  split; [exact reference_no_interference|]. split; [reflexivity|].
  split; [reflexivity|]. split; [exact Hrun|]. split; [exact Hchanged|].
  destruct (absent_removes_reported_group reference all_groups m no_scope
              reference_no_interference one_group gone log r
              eq_refl eq_refl Hrun) as [Htrue _].
  exact (Htrue Hchanged).
Defined.
